(** * Grepper: template-to-pattern compiler and line matcher

    A shallow embedding of [grepper.py] (classes [Match] and [Grepper], the
    loop of [main], class [CodeTrace] and the wrappers of its decorator) and
    of the part of Python's [re] module that the program drives: [re.escape],
    [re.sub] with the token-capture pattern, [re.compile] on the generated
    pattern text, and [Pattern.match].

    Python [str] values are modelled as [string]; a character is a code point
    in the range U+0000..U+00FF.  Text with other characters is outside the
    embedding; in particular the decimal digits are the ASCII ones, while the
    token-capture pattern also takes the decimal digits of other scripts for
    an index or a count.  The library is the one the program names
    ([python3.8], CPython on a 64-bit platform), with its limit on the
    conversion between [int] and [str] (versions 3.8.14 and later) at the
    default of 4300 digits; the messages of that limit are given as CPython
    3.11 prints them.  The [CodeTrace.trace] decorators only print the calls
    and their results to the trace file and hand the result through; the
    embedding of [Grepper] and of [main] leaves them out, and the decorator
    is embedded on its own. *)

From Stdlib Require Import Ascii String NArith ZArith List Lia DecimalString.
From stdpp Require Import gmap strings.

Local Open Scope stdpp_scope.
#[local] Arguments String.append : simpl nomatch.
#[local] Arguments Ascii.eqb !_ !_ /.

(** ** Exceptions *)

(** The exceptions the program can raise.  [grepper.py] raises [ValueError]
    itself; [OverflowError], [re_error] and [IndexError] come from [re] (the
    messages of [re_error] are shortened).  [Unmodelled] marks pattern text
    outside the fragment of the pattern dialect embedded here; the pattern
    text the program generates is shown to stay inside it
    ([map_pattern_to_re_spec]). *)
Inductive exn : Type :=
| ValueError (msg : string)
| OverflowError (msg : string)
| IndexError (msg : string)
| re_error (msg : string)
| Unmodelled.

Inductive result (A : Type) : Type :=
| Ok (a : A)
| Raise (e : exn).
Arguments Ok {A} a.
Arguments Raise {A} e.

#[global] Instance result_ret : MRet result := λ A a, Ok a.
#[global] Instance result_bind : MBind result := λ A B f m,
  match m with
  | Ok a => f a
  | Raise e => Raise e
  end.

(** ** Characters *)

Definition code (c : ascii) : N := N_of_ascii c.

Abbreviation backslash := ("\"%char).
Abbreviation newline := ("010"%char).
Abbreviation tab := ("009"%char).
Abbreviation carriage_return := ("013"%char).
Abbreviation vertical_tab := ("011"%char).
Abbreviation form_feed := ("012"%char).
Abbreviation single_quote := ("'"%char).
Abbreviation double_quote := ("034"%char).

(** ASCII decimal digits: [\d] on code points below 256, and [DIGITS] of the
    pattern parser. *)
Definition is_digit (c : ascii) : bool :=
  (48 <=? code c)%N && (code c <=? 57)%N.

(** [\s] with Unicode semantics on code points below 256. *)
Definition is_space (c : ascii) : bool :=
  let n := code c in
  ((9 <=? n) && (n <=? 13) || (28 <=? n) && (n <=? 32)
   || (n =? 133) || (n =? 160))%N.

(** The keys of [re._special_chars_map]:
    [b'()[]{}?*+-|^$\\.&~# \t\n\r\v\f']. *)
Definition _special_chars : string :=
  "()[]{}?*+-|^$\.&~# "
  +:+ String tab (String newline (String carriage_return
        (String vertical_tab (String form_feed "")))).

(** ** Strings *)

Fixpoint join (l : list string) : string :=
  match l with
  | [] => ""
  | s :: l' => s +:+ join l'
  end.

Fixpoint forallb_str (p : ascii → bool) (s : string) : bool :=
  match s with
  | "" => true
  | String c s' => p c && forallb_str p s'
  end.

Fixpoint existsb_str (p : ascii → bool) (s : string) : bool :=
  match s with
  | "" => false
  | String c s' => p c || existsb_str p s'
  end.

Definition is_special (c : ascii) : bool :=
  existsb_str (Ascii.eqb c) _special_chars.

(** [s[:n]] *)
Fixpoint take_str (n : nat) (s : string) : string :=
  match n, s with
  | S n', String c s' => String c (take_str n' s')
  | _, _ => ""
  end.

(** [s.startswith(p)], returning what follows the prefix. *)
Fixpoint strip_prefix (p s : string) : option string :=
  match p, s with
  | "", _ => Some s
  | String a p', String b s' => if Ascii.eqb a b then strip_prefix p' s' else None
  | String _ _, "" => None
  end.

(** The maximal run of leading decimal digits, and what follows it. *)
Fixpoint span_digits (s : string) : string * string :=
  match s with
  | String c s' =>
      if is_digit c then let '(d, r) := span_digits s' in (String c d, r)
      else ("", s)
  | "" => ("", "")
  end.

(** The value of a string of decimal digits. *)
Definition digit_value (c : ascii) : N := (code c - 48)%N.

Fixpoint int_acc (acc : N) (s : string) : N :=
  match s with
  | "" => acc
  | String c s' => int_acc (10 * acc + digit_value c)%N s'
  end.

Definition int (s : string) : N := int_acc 0 s.

(** An integer in decimal. *)
Definition decimal (i : Z) : string := NilZero.string_of_int (Z.to_int i).

(** [sys.get_int_max_str_digits()]: more digits than this are refused by the
    conversions between [int] and [str]. *)
Definition int_max_str_digits : N := 4300.

Definition too_long (digits : string) : bool :=
  (int_max_str_digits <? N.of_nat (String.length digits))%N.

(** The errors of the two conversions. *)
Definition int_limit_error (n : nat) : exn :=
  ValueError ("Exceeds the limit (" +:+ decimal (Z.of_N int_max_str_digits)
              +:+ " digits) for integer string conversion: value has "
              +:+ decimal (Z.of_nat n)
              +:+ " digits; use sys.set_int_max_str_digits() to increase the limit").

Definition str_limit_error : exn :=
  ValueError ("Exceeds the limit (" +:+ decimal (Z.of_N int_max_str_digits)
              +:+ " digits) for integer string conversion; "
              +:+ "use sys.set_int_max_str_digits() to increase the limit").

(** [int(s)] for a string of decimal digits. *)
Definition int_conversion (s : string) : result N :=
  if too_long s then Raise (int_limit_error (String.length s)) else Ok (int s).

(** [str(i)] for an integer, also as an f-string formats it. *)
Definition str (i : Z) : result string :=
  if too_long (decimal (Z.abs i)) then Raise str_limit_error else Ok (decimal i).

(** *** [re.escape] *)

Definition escape_char (c : ascii) : string :=
  if is_special c then String backslash (String c "") else String c "".

Fixpoint escape (pattern : string) : string :=
  match pattern with
  | "" => ""
  | String c s => escape_char c +:+ escape s
  end.

(** *** [repr] of a string *)

Definition hex_digit (n : N) : ascii :=
  if (n <? 10)%N then ascii_of_N (48 + n) else ascii_of_N (87 + n).

Definition is_printable (c : ascii) : bool :=
  let n := code c in
  ((32 <=? n) && (n <? 127) || (161 <=? n) && negb (n =? 173))%N.

Definition repr_char (quote c : ascii) : string :=
  if Ascii.eqb c quote || Ascii.eqb c backslash then String backslash (String c "")
  else if Ascii.eqb c tab then "\t"
  else if Ascii.eqb c newline then "\n"
  else if Ascii.eqb c carriage_return then "\r"
  else if is_printable c then String c ""
  else String backslash
         (String "x"%char (String (hex_digit (code c / 16)) (String (hex_digit (code c mod 16)) ""))).

Fixpoint repr_body (quote : ascii) (s : string) : string :=
  match s with
  | "" => ""
  | String c s' => repr_char quote c +:+ repr_body quote s'
  end.

Definition repr (s : string) : string :=
  let quote :=
    if existsb_str (Ascii.eqb single_quote) s
       && negb (existsb_str (Ascii.eqb double_quote) s)
    then double_quote else single_quote in
  String quote (repr_body quote s +:+ String quote "").

(** ** The token-capture pattern and [re.sub] *)

Definition _TOKEN_GROUP_PREFIX : string := "token_".

(** A match of a placeholder [open <digits> [G | S<digits>] close] at the
    start of [s]: the index, the modifier if any, and the text that follows.
    The alternatives are tried in the order a backtracking matcher tries
    [(G|S(\d+))?]: with [G], with [S<digits>], without modifier. *)
Definition match_placeholder (open close s : string)
  : option (string * option string * string) :=
  s1 ← strip_prefix open s;
  let '(index, s2) := span_digits s1 in
  if String.eqb index "" then None else
  let with_G :=
    s3 ← strip_prefix "G" s2;
    s4 ← strip_prefix close s3;
    Some (index, Some "G", s4) in
  let with_S :=
    s3 ← strip_prefix "S" s2;
    let '(n, s4) := span_digits s3 in
    if String.eqb n "" then None else
    s5 ← strip_prefix close s4;
    Some (index, Some ("S" +:+ n), s5) in
  let without :=
    s3 ← strip_prefix close s2;
    Some (index, None, s3) in
  match with_G with
  | Some r => Some r
  | None => match with_S with Some r => Some r | None => without end
  end.

(** The match object handed to the replacement function of [re.sub]. *)
Record token_match : Type := {
  tm_group0 : string;             (* token_match.group(0) *)
  tm_index : string;              (* token_match.group("index") *)
  tm_modifier : option string;    (* token_match.group("modifier") *)
  tm_string : string              (* token_match.string *)
}.

(** [_TOKEN_CAPTURE_RE = r"%\\{(?P<index>\d+)(?P<modifier>G|S(\d+))?\\}"]
    matched at the start of [s], a suffix of [subject]. *)
Definition _TOKEN_CAPTURE_RE (subject s : string) : option token_match :=
  '(index, modifier, rest) ← match_placeholder "%\{" "\}" s;
  Some {| tm_group0 := take_str (String.length s - String.length rest) s;
          tm_index := index;
          tm_modifier := modifier;
          tm_string := subject |}.

Section re_sub.
Context {St : Type}.

(** The replacement function of the source closes over a mutable set; here
    it takes the set as a state and returns the updated one.  A replacement
    function that returns [None] contributes the empty string. *)
Variable repl : token_match → St → result (option string * St).
Variable subject : string.

(** [re.sub(_TOKEN_CAPTURE_RE, repl, subject)]: left to right, every
    non-overlapping match is replaced.  [skip] counts the characters of the
    current match that are still to be passed over. *)
Fixpoint sub_from (skip : nat) (s : string) (st : St) : result string :=
  match s with
  | "" => Ok ""
  | String c s' =>
      match skip with
      | S n => sub_from n s' st
      | O =>
          match _TOKEN_CAPTURE_RE subject s with
          | Some tm =>
              '(y, st') ← repl tm st;
              out ← sub_from (String.length (tm_group0 tm) - 1) s' st';
              Ok (default "" y +:+ out)
          | None =>
              out ← sub_from 0 s' st;
              Ok (String c out)
          end
      end
  end.

Definition re_sub (st : St) : result string := sub_from 0 subject st.

End re_sub.

(** ** The pattern dialect: abstract syntax *)

(** What matches one character. *)
Inductive cset : Type :=
| CLit (c : ascii)     (* a literal character *)
| CAny                 (* [.] without DOTALL *)
| CSpace               (* [\s] *)
| CNotSpace.           (* [\S] *)

Definition cset_match (cs : cset) (c : ascii) : bool :=
  match cs with
  | CLit a => Ascii.eqb a c
  | CAny => negb (Ascii.eqb c newline)
  | CSpace => is_space c
  | CNotSpace => negb (is_space c)
  end.

Inductive re : Type :=
| Eps                                  (* the empty sequence *)
| Chr (cs : cset)                      (* one character *)
| Bol                                  (* [^] *)
| Eol                                  (* [$] *)
| Star (greedy : bool) (cs : cset)     (* [x*] and [x*?] on one character *)
| Rep (n : N) (r : re)                 (* [r{n}] *)
| Grp (name : string) (r : re)         (* [(?P<name>r)] *)
| Seq (r1 r2 : re).

Fixpoint group_names (r : re) : list string :=
  match r with
  | Rep _ r => group_names r
  | Grp name r => name :: group_names r
  | Seq r1 r2 => group_names r1 ++ group_names r2
  | _ => []
  end.

(** ** [re.compile]: parsing the pattern text *)

Definition MAXREPEAT : N := 4294967295.

Definition is_ascii_alpha (c : ascii) : bool :=
  let n := code c in
  ((65 <=? n) && (n <=? 90) || (97 <=? n) && (n <=? 122))%N.

Definition is_repeat_char (c : ascii) : bool :=
  existsb_str (Ascii.eqb c) "*+?{".

(** [str.isidentifier] on ASCII names. *)
Definition is_identifier (name : string) : bool :=
  match name with
  | "" => false
  | String c _ =>
      negb (is_digit c)
      && forallb_str (λ a, is_ascii_alpha a || is_digit a || Ascii.eqb a "_") name
  end.

(** The text up to the first [stop], and what follows it. *)
Fixpoint span_until (stop : ascii) (s : string) : option (string * string) :=
  match s with
  | "" => None
  | String c s' =>
      if Ascii.eqb c stop then Some ("", s')
      else '(x, r) ← span_until stop s'; Some (String c x, r)
  end.

(** A backslash followed by [c]. *)
Definition parse_escape (c : ascii) : result re :=
  if Ascii.eqb c "s" then Ok (Chr CSpace)
  else if Ascii.eqb c "S" then Ok (Chr CNotSpace)
  else if is_ascii_alpha c || is_digit c then Raise Unmodelled
  else Ok (Chr (CLit c)).

Definition no_repeat_follows (s : string) : bool :=
  match s with
  | String c _ => negb (is_repeat_char c)
  | "" => true
  end.

(** The quantifier, if any, that follows [atom]. *)
Definition parse_repeat (atom : re) (s : string) : result (re * string) :=
  match s with
  | String c s1 =>
      if Ascii.eqb c "*" then
        match atom with
        | Chr cs =>
            match s1 with
            | String q s2 =>
                if Ascii.eqb q "?" then
                  if no_repeat_follows s2 then Ok (Star false cs, s2)
                  else Raise Unmodelled
                else if is_repeat_char q then Raise Unmodelled
                else Ok (Star true cs, s1)
            | "" => Ok (Star true cs, s1)
            end
        | _ => Raise Unmodelled
        end
      else if Ascii.eqb c "{" then
        let '(lo, s2) := span_digits s1 in
        match atom, s2 with
        | Bol, _ | Eol, _ => Raise Unmodelled
        | _, String b s3 =>
            if Ascii.eqb b "}" && negb (String.eqb lo "") then
              min ← int_conversion lo;
              if (MAXREPEAT <=? min)%N
              then Raise (OverflowError "the repetition number is too large")
              else if no_repeat_follows s3 then Ok (Rep min atom, s3)
              else Raise Unmodelled
            else Raise Unmodelled
        | _, "" => Raise Unmodelled
        end
      else if is_repeat_char c then Raise Unmodelled
      else Ok (atom, s)
  | "" => Ok (atom, s)
  end.

Definition expect (c : ascii) (s : string) : result string :=
  match s with
  | String a s' =>
      if Ascii.eqb a c then Ok s'
      else Raise (re_error "missing ), unterminated subpattern")
  | "" => Raise (re_error "missing ), unterminated subpattern")
  end.

(** A sequence of items, up to an unmatched [)] or the end of the text. *)
Fixpoint parse_seq (fuel : nat) (s : string) : result (re * string) :=
  match fuel with
  | O => Raise Unmodelled
  | S fuel' =>
      match s with
      | "" => Ok (Eps, "")
      | String c s1 =>
          if Ascii.eqb c ")" then Ok (Eps, s) else
          '(atom, s2) ←
            (if Ascii.eqb c "(" then
               match strip_prefix "?:" s1 with
               | Some s2 =>
                   '(body, s3) ← parse_seq fuel' s2;
                   s4 ← expect ")" s3;
                   Ok (body, s4)
               | None =>
                   match strip_prefix "?P<" s1 with
                   | Some s2 =>
                       match span_until ">" s2 with
                       | Some (name, s3) =>
                           if is_identifier name then
                             '(body, s4) ← parse_seq fuel' s3;
                             s5 ← expect ")" s4;
                             Ok (Grp name body, s5)
                           else Raise (re_error "bad character in group name")
                       | None => Raise (re_error "missing >, unterminated name")
                       end
                   | None => Raise Unmodelled
                   end
               end
             else if Ascii.eqb c backslash then
               match s1 with
               | String d s2 => atom ← parse_escape d; Ok (atom, s2)
               | "" => Raise (re_error "bad escape (end of pattern)")
               end
             else if Ascii.eqb c "." then Ok (Chr CAny, s1)
             else if Ascii.eqb c "^" then Ok (Bol, s1)
             else if Ascii.eqb c "$" then Ok (Eol, s1)
             else if is_repeat_char c || Ascii.eqb c "[" || Ascii.eqb c "|"
             then Raise Unmodelled
             else Ok (Chr (CLit c), s1));
          '(item, s3) ← parse_repeat atom s2;
          '(rest, s4) ← parse_seq fuel' s3;
          Ok (Seq item rest, s4)
      end
  end.

(** A compiled pattern: its text and its syntax tree. *)
Record Pattern : Type := {
  p_pattern : string;
  p_ast : re
}.

Definition groupindex (p : Pattern) : list string := group_names (p_ast p).

Definition re_compile (pattern : string) : result Pattern :=
  '(r, rest) ← parse_seq (S (String.length pattern)) pattern;
  match rest with
  | "" =>
      if decide (NoDup (group_names r))
      then Ok {| p_pattern := pattern; p_ast := r |}
      else Raise (re_error "redefinition of group name")
  | String _ _ => Raise (re_error "unbalanced parenthesis")
  end.

(** ** [Pattern.match]: backtracking matching *)

(** The named groups set so far. *)
Abbreviation groups := (gmap string string).

(** A continuation receives the position reached, the text from there on and
    the groups; it answers with the end of the match and the final groups. *)
Definition cont : Type := nat → string → groups → option (nat * groups).

(** [$] without MULTILINE: at the end, or before a newline that ends the
    text. *)
Definition at_end (s : string) : bool :=
  match s with
  | "" => true
  | String c "" => Ascii.eqb c newline
  | _ => false
  end.

(** Greedy repetition of one character: the longest run is tried first. *)
Fixpoint star_max (p : ascii → bool) (k : cont) (i : nat) (s : string) (g : groups)
  : option (nat * groups) :=
  match s with
  | String c s' =>
      if p c then
        match star_max p k (S i) s' g with
        | Some r => Some r
        | None => k i s g
        end
      else k i s g
  | "" => k i s g
  end.

(** Lazy repetition of one character: the shortest run is tried first. *)
Fixpoint star_min (p : ascii → bool) (k : cont) (i : nat) (s : string) (g : groups)
  : option (nat * groups) :=
  match k i s g with
  | Some r => Some r
  | None =>
      match s with
      | String c s' => if p c then star_min p k (S i) s' g else None
      | "" => None
      end
  end.

Fixpoint exec (r : re) (k : cont) (i : nat) (s : string) (g : groups)
  : option (nat * groups) :=
  match r with
  | Eps => k i s g
  | Chr cs =>
      match s with
      | String c s' => if cset_match cs c then k (S i) s' g else None
      | "" => None
      end
  | Bol => if Nat.eqb i 0 then k i s g else None
  | Eol => if at_end s then k i s g else None
  | Star true cs => star_max (cset_match cs) k i s g
  | Star false cs => star_min (cset_match cs) k i s g
  | Rep n r => Nat.iter (N.to_nat n) (exec r) k i s g
  | Grp name r =>
      exec r (λ j s' g', k j s' (<[name := take_str (j - i) s]> g')) i s g
  | Seq r1 r2 => exec r1 (exec r2 k) i s g
  end.

(** The match object of [re]. *)
Record ReMatch : Type := {
  m_re : Pattern;        (* match.re *)
  m_string : string;     (* match.string *)
  m_end : nat;           (* match.end() *)
  m_groups : groups
}.

(** The final continuation of [Pattern.match]. *)
Definition accept : cont := λ j _ g, Some (j, g).

(** [regex.match(line)] *)
Definition re_match (regex : Pattern) (line : string) : option ReMatch :=
  '(e, g) ← exec (p_ast regex) accept 0 line ∅;
  Some {| m_re := regex; m_string := line; m_end := e; m_groups := g |}.

(** [match.group(name)]: [Ok None] is Python's [None], for a group that took
    no part in the match. *)
Definition group (m : ReMatch) (name : string) : result (option string) :=
  if decide (name ∈ groupindex (m_re m)) then Ok (m_groups m !! name)
  else Raise (IndexError "no such group").

(** [match.group(0)] *)
Definition group0 (m : ReMatch) : string := take_str (m_end m) (m_string m).

(** ** class [Match] *)

Record Match : Type := {
  wrapped : ReMatch;
  pattern : string
}.

Definition token (self : Match) (index : Z) : result (option string) :=
  name ← str index;
  group (wrapped self) (_TOKEN_GROUP_PREFIX +:+ name).

Definition line (self : Match) : string := m_string (wrapped self).

(** ** class [Grepper] *)

Fixpoint _unescape (s : string) : string :=
  match s with
  | "" => ""
  | String c s' =>
      if Ascii.eqb c backslash then
        match s' with
        | String d s'' =>
            if Ascii.eqb d newline then String c (_unescape s')
            else String d (_unescape s'')
        | "" => String c ""
        end
      else String c (_unescape s')
  end.

Definition _raise_on_duplicate_token_index (token_match : token_match) : result unit :=
  let unescaped_token := _unescape (tm_group0 token_match) in
  let unescaped_pattern := _unescape (tm_string token_match) in
  Raise (ValueError ("Duplicate token index " +:+ unescaped_token
                     +:+ " in " +:+ repr unescaped_pattern)).

Definition _map_token_to_re (token_match : token_match) (indices : gset string)
  : result (option string * gset string) :=
  let index := tm_index token_match in
  let modifier := tm_modifier token_match in
  indices ←
    (if decide (index ∈ indices)
     then _ ← _raise_on_duplicate_token_index token_match; Ok indices
     else Ok ({[index]} ∪ indices));
  let regex (body : string) : string :=
    "(?P<" +:+ _TOKEN_GROUP_PREFIX +:+ index +:+ ">" +:+ body +:+ ")" in
  match modifier with
  | None | Some "" => Ok (Some (regex ".*?"), indices)
  | Some modifier =>
      if String.eqb modifier "G" then Ok (Some (regex ".*"), indices)
      else
        match strip_prefix "S" modifier with
        | Some total_spaces =>
            Ok (Some (regex ("(?:\S*\s\S*){" +:+ total_spaces +:+ "}\S*")), indices)
        | None => Ok (None, indices)
        end
  end.

Definition map_pattern_to_re (pattern : string) : result Pattern :=
  let seen_indices : gset string := ∅ in
  regex ← re_sub _map_token_to_re pattern seen_indices;
  re_compile ("^" +:+ regex +:+ "$").

Record Grepper : Type := {
  patterns : list string;
  regexes : list Pattern
}.

(** [tuple(f(x) for x in xs)]: the first exception ends the iteration. *)
Fixpoint mapM {A B} (f : A → result B) (l : list A) : result (list B) :=
  match l with
  | [] => Ok []
  | x :: l' => y ← f x; ys ← mapM f l'; Ok (y :: ys)
  end.

(** [Grepper.__init__], applied to the tuple of templates *)
Definition __init__ (patterns : list string) : result Grepper :=
  match patterns with
  | [] => Raise (ValueError "One or more patterns is required")
  | _ =>
      let escaped_patterns := map escape patterns in
      regexes ← mapM map_pattern_to_re escaped_patterns;
      Ok {| patterns := patterns; regexes := regexes |}
  end.

(** The loop of [match_line], from the [i]-th pattern on. *)
Fixpoint match_line_from (self : Grepper) (i : nat) (rs : list Pattern) (line : string)
  : result (option Match) :=
  match rs with
  | [] => Ok None
  | regex :: rs' =>
      match re_match regex line with
      | Some m =>
          match patterns self !! i with
          | Some p => Ok (Some {| wrapped := m; pattern := p |})
          | None => Raise (IndexError "tuple index out of range")
          end
      | None => match_line_from self (S i) rs' line
      end
  end.

Definition match_line (self : Grepper) (line : string) : result (option Match) :=
  match_line_from self 0 (regexes self) line.

(** ** The command-line program *)

(** [s.rstrip(chars)]: [s] without the characters of [chars] at its end. *)
Fixpoint rstrip (chars s : string) : string :=
  match s with
  | "" => ""
  | String c s' =>
      match rstrip chars s' with
      | "" => if existsb_str (Ascii.eqb c) chars then "" else String c ""
      | r => String c r
      end
  end.

(** [print(s, file=file)]; a file open for writing is the text written to it
    so far. *)
Definition print (s file : string) : string := file +:+ s +:+ String newline "".






(** ** Call tracing: the wrappers of the decorator and class [CodeTrace] *)

(** The objects that the tracer looks at: it takes the [repr] of arguments
    and results, and the name of the class of the instance a method is called
    on.  An object other than [None], a string or a class is given by the
    name of its type and by its [repr]. *)
Inductive value : Type :=
| VNone
| VStr (s : string)
| VClass (name shown : string)         (* a class: [__name__] and [repr] *)
| VObject (type_name shown : string).  (* [type(v).__name__] and [repr] *)

(** [repr(v)] *)
Definition repr_value (v : value) : string :=
  match v with
  | VNone => "None"
  | VStr s => repr s
  | VClass _ shown | VObject _ shown => shown
  end.

(** The exceptions of traced code: those of the program, and the two that
    the wrappers can run into. *)
Inductive raised : Type :=
| Exn (e : exn)
| AttributeError (msg : string)
| TypeError (msg : string).

(** The state that traced code works on: the text written to
    [CodeTrace.file], and the clock, given by its successive readings as
    [isoformat] prints them and by the number of readings taken so far. *)
Record world : Type := {
  trace_file : string;
  now : nat → string;
  readings : nat
}.

Inductive outcome (A : Type) : Type :=
| Returned (a : A)
| Raised (e : raised).
Arguments Returned {A} a.
Arguments Raised {A} e.

Definition traced (A : Type) : Type := world → outcome A * world.

#[global] Instance traced_ret : MRet traced := λ A a w, (Returned a, w).
#[global] Instance traced_bind : MBind traced := λ A B f m w,
  match m w with
  | (Returned a, w') => f a w'
  | (Raised e, w') => (Raised e, w')
  end.

Definition throw {A} (e : raised) : traced A := λ w, (Raised e, w).

(** A function defined with [def]: its [__name__], and its body applied to
    the positional and the keyword arguments. *)
Record function : Type := {
  fn_name : string;
  fn_body : list value → list (string * value) → traced value
}.

(** What the decorator is applied to, and what the wrappers make of it. *)
Inductive callable : Type :=
| Plain (f : function)                    (* a function *)
| ClassMethod (f : function)              (* [classmethod(f)] *)
| StaticMethod (f : function)             (* [staticmethod(f)] *)
| Bound (f : function) (self : value)     (* the method [f] bound to [self] *)
| Partial (c : callable) (arg : value).   (* [functools.partial(c, arg)] *)

(** The call of [c] with the positional arguments [args] and the keyword
    arguments [kwargs]. *)
Fixpoint call (c : callable) (args : list value) (kwargs : list (string * value))
  : traced value :=
  match c with
  | Plain f => fn_body f args kwargs
  | Bound f self => fn_body f (self :: args) kwargs
  | Partial c arg => call c (arg :: args) kwargs
  | ClassMethod _ => throw (TypeError "'classmethod' object is not callable")
  | StaticMethod _ => throw (TypeError "'staticmethod' object is not callable")
  end.

(** [c.__name__] *)
Definition __name__ (c : callable) : traced string :=
  match c with
  | Plain f | Bound f _ => mret (fn_name f)
  | ClassMethod _ =>
      throw (AttributeError "'classmethod' object has no attribute '__name__'")
  | StaticMethod _ =>
      throw (AttributeError "'staticmethod' object has no attribute '__name__'")
  | Partial _ _ =>
      throw (AttributeError "'functools.partial' object has no attribute '__name__'")
  end.

(** [getattr(c, "__self__", None)] *)
Definition __self__ (c : callable) : value :=
  match c with
  | Bound _ self => self
  | _ => VNone
  end.

(** [c.__get__(instance, owner)] *)
Definition __get__ (c : callable) (instance owner : value) : traced callable :=
  match c with
  | Plain f | Bound f _ =>
      match instance with
      | VNone => mret (Plain f)
      | _ => mret (Bound f instance)
      end
  | ClassMethod f => mret (Bound f owner)
  | StaticMethod f => mret (Plain f)
  | Partial _ _ =>
      throw (AttributeError "'functools.partial' object has no attribute '__get__'")
  end.

(** The function that a wrapper runs in the place of the wrapped one: it
    receives the wrapped callable, the instance, and the arguments. *)
Definition wrapper : Type :=
  callable → value → list value → list (string * value) → traced value.

(** The two wrappers; [wrapped] is the attribute that [_ObjectProxy.__init__]
    sets. *)
Record _FunctionWrapper : Type := {
  fw_wrapped : callable;
  fw_wrapper : wrapper;
  fw_binding : string
}.

Record _BoundFunctionWrapper : Type := {
  bw_wrapped : callable;
  bw_instance : value;
  bw_wrapper : wrapper;
  bw_binding : string;
  bw_parent : _FunctionWrapper
}.

(** [_FunctionWrapper.__init__] *)
Definition _FunctionWrapper__init__ (wrapped : callable) (wrapper : wrapper)
  : _FunctionWrapper :=
  {| fw_wrapped := wrapped;
     fw_wrapper := wrapper;
     fw_binding :=
       match wrapped with
       | ClassMethod _ => "classmethod"
       | StaticMethod _ => "staticmethod"
       | _ => "function"
       end |}.

(** [_FunctionWrapper.__get__] *)
Definition _FunctionWrapper__get__ (self : _FunctionWrapper) (instance owner : value)
  : traced _BoundFunctionWrapper :=
  wrapped ← __get__ (fw_wrapped self) instance owner;
  mret {| bw_wrapped := wrapped; bw_instance := instance;
          bw_wrapper := fw_wrapper self; bw_binding := fw_binding self;
          bw_parent := self |}.


(** [_BoundFunctionWrapper.__call__] *)
Definition _BoundFunctionWrapper__call__ (self : _BoundFunctionWrapper)
    (args : list value) (kwargs : list (string * value)) : traced value :=
  if String.eqb (bw_binding self) "function" then
    match bw_instance self with
    | VNone =>
        match args with
        | instance :: args =>
            let wrapped := Partial (bw_wrapped self) instance in
            bw_wrapper self wrapped instance args kwargs
        | [] =>
            throw (Exn (ValueError
                          "not enough values to unpack (expected at least 1, got 0)"))
        end
    | _ => bw_wrapper self (bw_wrapped self) (bw_instance self) args kwargs
    end
  else
    let instance := __self__ (bw_wrapped self) in
    bw_wrapper self (bw_wrapped self) instance args kwargs.

(** [_BoundFunctionWrapper.__get__] *)
Definition _BoundFunctionWrapper__get__ (self : _BoundFunctionWrapper)
    (instance owner : value) : traced _BoundFunctionWrapper :=
  match bw_instance self with
  | VNone =>
      if String.eqb (bw_binding self) "function" then
        descriptor ← __get__ (fw_wrapped (bw_parent self)) instance owner;
        mret {| bw_wrapped := descriptor; bw_instance := instance;
                bw_wrapper := bw_wrapper self; bw_binding := bw_binding self;
                bw_parent := bw_parent self |}
      else mret self
  | _ => mret self
  end.

(** [_decorator(wrapper)(wrapped)] *)
Definition _decorator (wrapper : wrapper) (wrapped : callable) : _FunctionWrapper :=
  _FunctionWrapper__init__ wrapped wrapper.

(** *** class [CodeTrace] *)

(** [sep.join(l)] *)
Fixpoint str_join (sep : string) (l : list string) : string :=
  match l with
  | [] => ""
  | [x] => x
  | x :: l' => x +:+ sep +:+ str_join sep l'
  end.

(** [print(s, file=cls.file)] *)
Definition print_trace (s : string) : traced unit :=
  λ w, (Returned (),
        {| trace_file := print s (trace_file w); now := now w; readings := readings w |}).

Definition _timestamp : traced string :=
  λ w, (Returned (now w (readings w)),
        {| trace_file := trace_file w; now := now w; readings := S (readings w) |}).

Definition _signature (args : list value) (kwargs : list (string * value)) : string :=
  let positional := repr_value <$> args in
  let keyword := (λ '(k, v), k +:+ "=" +:+ repr_value v) <$> kwargs in
  str_join ", " (positional ++ keyword).

Definition _format_call (function : callable) (instance : value) : traced string :=
  let prefix :=
    match instance with
    | VNone => "[fn] "
    | VClass name _ => "[cm] " +:+ name +:+ "."
    | VStr _ => "[im] str."
    | VObject type_name _ => "[im] " +:+ type_name +:+ "."
    end in
  name ← __name__ function;
  mret (prefix +:+ name).

Definition _prefix (instance : value) (fn : callable) (action : string) : traced string :=
  timestamp ← _timestamp;
  format_call ← _format_call fn instance;
  mret (timestamp +:+ " *** " +:+ action +:+ " " +:+ format_call).

Definition _print_call_arguments (instance : value) (fn : callable)
    (args : list value) (kwargs : list (string * value)) (quiet : bool) : traced unit :=
  let signature := if quiet then "" else "(" +:+ _signature args kwargs +:+ ")" in
  prefix ← _prefix instance fn "ENTER";
  print_trace (prefix +:+ signature).

Definition _print_call_result (instance : value) (fn : callable) (result : value)
    (quiet : bool) : traced unit :=
  let result := if quiet then "" else "() => " +:+ repr_value result in
  prefix ← _prefix instance fn "EXIT";
  print_trace (prefix +:+ result).

(** The wrapper [_trace] that [CodeTrace.trace] defines. *)
Definition _trace (skip quiet : bool) : wrapper := λ wrapped instance args kwargs,
  if skip then call wrapped args kwargs else
  _ ← _print_call_arguments instance wrapped args kwargs quiet;
  result ← call wrapped args kwargs;
  _ ← _print_call_result instance wrapped result quiet;
  mret result.

(** [CodeTrace.trace(wrapped, skip=skip, quiet=quiet)]; without [wrapped] it
    is the decorator for the given [skip] and [quiet]. *)
Definition trace (skip quiet : bool) (wrapped : callable) : _FunctionWrapper :=
  _decorator (_trace skip quiet) wrapped.

(** * Templates as the specification reads them

    What follows is not code of the program.  It reads a template the way
    the specification describes it, as literal characters and placeholders,
    and says what pattern and what matches are expected of it; the lemmas
    below relate the program to it. *)

Inductive modifier : Type :=
| Lazy                              (* no modifier *)
| Greedy                            (* [G] *)
| SpacesLimited (count : string).   (* [S<digits>] *)

Inductive segment : Type :=
| Literal (c : ascii)
| Token (index : string) (m : modifier).

Definition modifier_of (m : option string) : modifier :=
  match m with
  | None => Lazy
  | Some s =>
      match strip_prefix "S" s with
      | Some count => SpacesLimited count
      | None => Greedy
      end
  end.

Definition modifier_text (m : modifier) : string :=
  match m with
  | Lazy => ""
  | Greedy => "G"
  | SpacesLimited count => "S" +:+ count
  end.

(** The placeholder as it is written in a template. *)
Definition placeholder (index : string) (m : modifier) : string :=
  "%{" +:+ index +:+ modifier_text m +:+ "}".

(** The placeholders [%{<digits>[<modifier>]}] of a template, read on the
    template itself, left to right; every other character is a literal. *)
Fixpoint segments_from (skip : nat) (s : string) : list segment :=
  match s with
  | "" => []
  | String c s' =>
      match skip with
      | S n => segments_from n s'
      | O =>
          match match_placeholder "%{" "}" s with
          | Some (index, m, rest) =>
              Token index (modifier_of m)
              :: segments_from (String.length s - String.length rest - 1) s'
          | None => Literal c :: segments_from 0 s'
          end
      end
  end.

Definition segments (template : string) : list segment := segments_from 0 template.

Definition indices (l : list segment) : list string :=
  omap (λ sg, match sg with Token index _ => Some index | Literal _ => None end) l.

Definition group_name (index : string) : string := _TOKEN_GROUP_PREFIX +:+ index.

(** The pattern text that replaces a placeholder. *)
Definition modifier_regex (m : modifier) : string :=
  match m with
  | Lazy => ".*?"
  | Greedy => ".*"
  | SpacesLimited count => "(?:\S*\s\S*){" +:+ count +:+ "}\S*"
  end.

Definition token_regex (index : string) (m : modifier) : string :=
  "(?P<" +:+ group_name index +:+ ">" +:+ modifier_regex m +:+ ")".

Definition duplicate_message (index : string) (m : modifier) (shown : string) : string :=
  "Duplicate token index " +:+ placeholder index m +:+ " in " +:+ repr shown.

(** The pattern text of a sequence of segments, or the error for the first
    placeholder whose index is already in [seen]. *)
Fixpoint render (shown : string) (l : list segment) (seen : gset string) : result string :=
  match l with
  | [] => Ok ""
  | Literal c :: l' =>
      out ← render shown l' seen;
      Ok (escape_char c +:+ out)
  | Token index m :: l' =>
      if decide (index ∈ seen) then Raise (ValueError (duplicate_message index m shown))
      else
        out ← render shown l' ({[index]} ∪ seen);
        Ok (token_regex index m +:+ out)
  end.

Definition segment_text (sg : segment) : string :=
  match sg with
  | Literal c => escape_char c
  | Token index m => token_regex index m
  end.

(** The syntax tree of a placeholder's pattern text. *)
Definition modifier_ast (m : modifier) : re :=
  match m with
  | Lazy => Seq (Star false CAny) Eps
  | Greedy => Seq (Star true CAny) Eps
  | SpacesLimited count =>
      Seq (Rep (int count)
             (Seq (Star true CNotSpace)
                (Seq (Chr CSpace) (Seq (Star true CNotSpace) Eps))))
        (Seq (Star true CNotSpace) Eps)
  end.

Fixpoint segments_ast (l : list segment) : re :=
  match l with
  | [] => Seq Eol Eps
  | Literal c :: l' => Seq (Chr (CLit c)) (segments_ast l')
  | Token index m :: l' =>
      Seq (Grp (group_name index) (modifier_ast m)) (segments_ast l')
  end.

Definition template_ast (template : string) : re :=
  Seq Bol (segments_ast (segments template)).

(** A placeholder is well formed when its index and its count are non-empty
    runs of decimal digits. *)
Definition digits (s : string) : Prop :=
  s ≠ "" ∧ forallb_str is_digit s = true.

Definition wf_modifier (m : modifier) : Prop :=
  match m with
  | SpacesLimited count => digits count
  | _ => True
  end.

Definition wf_segment (sg : segment) : Prop :=
  match sg with
  | Literal _ => True
  | Token index m => digits index ∧ wf_modifier m
  end.

(** ** Definitions used to state the properties *)

Definition has_newline (s : string) : bool := existsb_str (Ascii.eqb newline) s.

(** Text that does not start with a quantifier. *)
Definition plain_start (s : string) : Prop :=
  match s with
  | String c _ => is_repeat_char c = false
  | "" => True
  end.

(** The engine's error for a count that it rejects. *)
Definition overflow : exn := OverflowError "the repetition number is too large".

(** The error, if any, that the count of a placeholder runs into when the
    pattern is compiled: a count of more digits than [int] converts, or else
    a count that the engine rejects. *)
Definition count_error (count : string) : option exn :=
  if too_long count then Some (int_limit_error (String.length count))
  else if (MAXREPEAT <=? int count)%N then Some overflow
  else None.

Definition rejected (sg : segment) : option exn :=
  match sg with
  | Token _ (SpacesLimited count) => count_error count
  | _ => None
  end.

(** The error of the first placeholder whose count runs into one. *)
Fixpoint first_rejected (l : list segment) : option exn :=
  match l with
  | [] => None
  | sg :: l' =>
      match rejected sg with
      | Some e => Some e
      | None => first_rejected l'
      end
  end.

Definition segments_text (l : list segment) : string := join (map segment_text l).

(** The first placeholder whose index is in [seen] or repeats an earlier one. *)
Fixpoint first_duplicate (l : list segment) (seen : gset string)
  : option (string * modifier) :=
  match l with
  | [] => None
  | Literal _ :: l' => first_duplicate l' seen
  | Token index m :: l' =>
      if decide (index ∈ seen) then Some (index, m)
      else first_duplicate l' ({[index]} ∪ seen)
  end.

(** The text handed to [re.compile] for a template. *)
Definition pattern_text (template : string) : string :=
  "^" +:+ segments_text (segments template) +:+ "$".

(** The pattern compiled from a template. *)
Definition compiled (template : string) : Pattern :=
  {| p_pattern := pattern_text template; p_ast := template_ast template |}.

(** [n] successive matches of [D]. *)
Fixpoint iter_den (n : nat) (D : nat → string → string → groups → groups → Prop)
    (i : nat) (x rest : string) (g g' : groups) : Prop :=
  match n with
  | O => x = "" ∧ g' = g
  | S n' =>
      ∃ x1 x2 gm, x = x1 +:+ x2 ∧ D i x1 (x2 +:+ rest) g gm
                  ∧ iter_den n' D (i + String.length x1) x2 rest gm g'
  end.

(** [r] matches the text [x] at position [i] when [rest] follows, taking the
    groups from [g] to [g']. *)
Fixpoint den (r : re) (i : nat) (x rest : string) (g g' : groups) : Prop :=
  match r with
  | Eps => x = "" ∧ g' = g
  | Chr cs => ∃ c, x = String c "" ∧ cset_match cs c = true ∧ g' = g
  | Bol => x = "" ∧ i = 0 ∧ g' = g
  | Eol => x = "" ∧ at_end rest = true ∧ g' = g
  | Star _ cs => forallb_str (cset_match cs) x = true ∧ g' = g
  | Rep n r => iter_den (N.to_nat n) (den r) i x rest g g'
  | Grp name r => ∃ gm, den r i x rest g gm ∧ g' = <[name := x]> gm
  | Seq r1 r2 =>
      ∃ x1 x2 gm, x = x1 +:+ x2 ∧ den r1 i x1 (x2 +:+ rest) g gm
                  ∧ den r2 (i + String.length x1) x2 rest gm g'
  end.

(** The number of whitespace characters of a text. *)
Fixpoint count_spaces (s : string) : nat :=
  match s with
  | "" => 0
  | String c s' => (if is_space c then 1 else 0) + count_spaces s'
  end.

(** The texts a placeholder can capture: without modifier and with [G], any
    text without a newline; with [S<n>], any text with exactly [n] whitespace
    characters. *)
Definition captures (m : modifier) (x : string) : Prop :=
  match m with
  | Lazy | Greedy => has_newline x = false
  | SpacesLimited count => count_spaces x = N.to_nat (int count)
  end.

Definition modifiers (l : list segment) : list modifier :=
  omap (λ sg, match sg with Token _ m => Some m | Literal _ => None end) l.

(** The literals of [l] with the texts [xs] in the place of the placeholders. *)
Fixpoint fill (l : list segment) (xs : list string) : string :=
  match l with
  | [] => ""
  | Literal c :: l' => String c (fill l' xs)
  | Token _ _ :: l' =>
      match xs with
      | x :: xs' => x +:+ fill l' xs'
      | [] => fill l' []
      end
  end.

(** The groups after the placeholders of [l] have captured [xs]. *)
Fixpoint bind_groups (l : list segment) (xs : list string) (g : groups) : groups :=
  match l with
  | [] => g
  | Literal _ :: l' => bind_groups l' xs g
  | Token index _ :: l' =>
      match xs with
      | x :: xs' => bind_groups l' xs' (<[group_name index := x]> g)
      | [] => g
      end
  end.

(** One repetition of [\S*\s\S*]. *)
Definition one_space : re :=
  Seq (Star true CNotSpace) (Seq (Chr CSpace) (Seq (Star true CNotSpace) Eps)).

(** The two errors of construction, as the specification names them. *)
Definition NoPatternsProvided : exn := ValueError "One or more patterns is required".

Definition DuplicateTokenIndex (e : exn) : Prop :=
  ∃ index m shown, e = ValueError (duplicate_message index m shown).

(** A template compiles when its indices are written with pairwise
    different digits and its counts have no more digits than [int] converts
    and are below the repetition limit. *)
Definition compiles (t : string) : Prop :=
  NoDup (indices (segments t)) ∧ first_rejected (segments t) = None.

(** The result of the first template, in order, whose pattern matches. *)
Fixpoint first_match (ts : list string) (line : string) : option Match :=
  match ts with
  | [] => None
  | t :: ts' =>
      match re_match (compiled t) line with
      | Some m => Some {| wrapped := m; pattern := t |}
      | None => first_match ts' line
      end
  end.

(** The segments [l], followed by the end of the line, match [q]. *)
Definition rest_matches (l : list segment) (q : string) : Prop :=
  ∃ xs rest, q = fill l xs +:+ rest ∧ Forall2 captures (modifiers l) xs
             ∧ at_end rest = true.

(** [match_line] on the pattern set built from [ts], followed by [f] on the
    result. *)
Definition run {A} (ts : list string) (l : string) (f : Match → result A)
  : result (option A) :=
  g ← __init__ ts;
  m ← match_line g l;
  match m with
  | Some m => x ← f m; Ok (Some x)
  | None => Ok None
  end.

(** The template [t] alone matches, or does not match, the line [l]. *)
Definition matches (t l : string) : Prop :=
  ∃ g m, __init__ [t] = Ok g ∧ match_line g l = Ok (Some m).

Definition no_match (t l : string) : Prop :=
  ∃ g, __init__ [t] = Ok g ∧ match_line g l = Ok None.

(** A run of non-space characters. *)
Definition nonspace_run (s : string) : Prop :=
  forallb_str (λ c, negb (is_space c)) s = true.

(** The shape of the texts a spaces-limited placeholder captures, in the
    words of the specification: a run of non-space characters, then exactly
    [n] repetitions of a single whitespace character followed by a run of
    non-space characters, then a trailing run of non-space characters. *)
Definition spaces_shape (n : nat) (x : string) : Prop :=
  ∃ (head : string) (parts : list (ascii * string)) (trailing : string),
    x = head +:+ join ((λ p, String p.1 p.2) <$> parts) +:+ trailing
    ∧ length parts = n
    ∧ nonspace_run head
    ∧ Forall (λ p, is_space p.1 = true ∧ nonspace_run p.2) parts
    ∧ nonspace_run trailing.

Definition modifier_group (m : modifier) : option string :=
  match m with
  | Lazy => None
  | Greedy => Some "G"
  | SpacesLimited count => Some (String "S" count)
  end.

(** The index a placeholder declares, as a non-negative integer. *)
Definition declares (l : list segment) (i : Z) : Prop :=
  ∃ index, index ∈ indices l ∧ Z.of_N (int index) = i.

(** [match_line] finds a match for the line. *)
Definition selects (g : Grepper) (l : string) : bool :=
  match match_line g l with
  | Ok (Some _) => true
  | _ => false
  end.

(** The line is the template with, in the place of each placeholder, a text
    that the placeholder can capture. *)
Definition instance_of (t l : string) : Prop :=
  ∃ xs, l = fill (segments t) xs ∧ Forall2 captures (modifiers (segments t)) xs.

(** The literals of [l] with, in the place of each placeholder, what [group]
    returns for its group in the match [m]. *)
Fixpoint substitute (l : list segment) (m : ReMatch) : result string :=
  match l with
  | [] => Ok ""
  | Literal c :: l' => out ← substitute l' m; Ok (String c out)
  | Token index _ :: l' =>
      x ← group m (group_name index);
      out ← substitute l' m;
      Ok (default "" x +:+ out)
  end.

(** A line with its newline. *)
Definition with_newline (l : string) : string := l +:+ String newline "".










(** The call [obj.method(args)] of a decorated method: the attribute is
    looked up through the descriptor, and the result is called. *)
Definition call_attribute (fw : _FunctionWrapper) (instance owner : value)
    (args : list value) (kwargs : list (string * value)) : traced value :=
  b ← _FunctionWrapper__get__ fw instance owner;
  _BoundFunctionWrapper__call__ b args kwargs.

Definition example_function : function :=
  {| fn_name := "a_method";
     fn_body := λ args kwargs,
       mret (VObject "list" ("[" +:+ str_join ", " (repr_value <$> args) +:+ "]")) |}.

Definition example_world : world :=
  {| trace_file := ""; now := λ n, "T" +:+ decimal (Z.of_nat n); readings := 0 |}.

(** * Lemmas *)

(** ** Basic facts about strings *)

Lemma str_app_nil_l (s : string) : "" +:+ s = s.
Proof. reflexivity. Qed.

Lemma str_app_cons (c : ascii) (s t : string) : String c s +:+ t = String c (s +:+ t).
Proof. reflexivity. Qed.

Lemma str_app_nil_r (s : string) : s +:+ "" = s.
Proof. induction s as [|c s IH]; [done|]. by rewrite str_app_cons, IH. Qed.

Lemma str_app_assoc (s t u : string) : (s +:+ t) +:+ u = s +:+ (t +:+ u).
Proof. induction s as [|c s IH]; [done|]. by rewrite !str_app_cons, IH. Qed.

Lemma str_length_app (s t : string) :
  String.length (s +:+ t) = String.length s + String.length t.
Proof. induction s as [|c s IH]; [done|]. rewrite str_app_cons. simpl. by rewrite IH. Qed.

Lemma take_str_app (s t : string) : take_str (String.length s) (s +:+ t) = s.
Proof. induction s as [|c s IH]; [by destruct t|]. rewrite str_app_cons. simpl. by rewrite IH. Qed.

Lemma take_str_app_diff (s t : string) :
  take_str (String.length (s +:+ t) - String.length t) (s +:+ t) = s.
Proof.
  rewrite str_length_app.
  replace (String.length s + String.length t - String.length t) with (String.length s) by lia.
  apply take_str_app.
Qed.

Lemma str_app_inv_tail (s t u : string) : s +:+ u = t +:+ u → s = t.
Proof.
  revert t. induction s as [|c s IH]; intros [|d t] H; [done|..].
  - apply (f_equal String.length) in H. simpl in H.
    rewrite str_length_app in H. lia.
  - apply (f_equal String.length) in H. simpl in H.
    rewrite str_length_app in H. lia.
  - rewrite !str_app_cons in H. injection H as -> H. f_equal. by apply IH.
Qed.

Lemma strip_prefix_Some (p s r : string) : strip_prefix p s = Some r → s = p +:+ r.
Proof.
  revert s. induction p as [|a p IH]; intros s H; simpl in H.
  - by destruct s; simplify_eq.
  - destruct s as [|b s]; [done|]. destruct (Ascii.eqb_spec a b) as [->|]; [|done].
    rewrite str_app_cons. f_equal. by apply IH.
Qed.

Lemma strip_prefix_app (p r : string) : strip_prefix p (p +:+ r) = Some r.
Proof.
  induction p as [|a p IH]; [by destruct r|].
  rewrite str_app_cons. simpl. by rewrite Ascii.eqb_refl.
Qed.

Lemma span_digits_spec (s d r : string) :
  span_digits s = (d, r) → s = d +:+ r ∧ forallb_str is_digit d = true.
Proof.
  revert d r. induction s as [|c s IH]; intros d r H; simpl in H.
  - by simplify_eq.
  - destruct (is_digit c) eqn:Hc; [|by simplify_eq].
    destruct (span_digits s) as [d' r'] eqn:Hs. simplify_eq.
    destruct (IH _ _ eq_refl) as [-> Hd]. simpl. by rewrite Hc, Hd.
Qed.

Lemma span_digits_app (d r : string) :
  forallb_str is_digit d = true →
  match r with String c _ => is_digit c = false | "" => True end →
  span_digits (d +:+ r) = (d, r).
Proof.
  intros Hd Hr. induction d as [|c d IH]; simpl in *.
  - destruct r as [|c r]; [done|]. simpl. by rewrite Hr.
  - apply andb_prop in Hd as [Hc Hd]. by rewrite Hc, IH.
Qed.

(** ** Facts about characters *)

Ltac each_char c := destruct c as [[] [] [] [] [] [] [] []].

Lemma digit_not_special (c : ascii) : is_digit c = true → is_special c = false.
Proof. each_char c; vm_compute; congruence. Qed.

Lemma special_cases (c : ascii) :
  is_special c = true →
  Ascii.eqb c "%" = false ∧ is_digit c = false
  ∧ Ascii.eqb c "G" = false ∧ Ascii.eqb c "S" = false.
Proof. each_char c; vm_compute; intros; repeat split; congruence. Qed.

Lemma not_special_cases (c : ascii) :
  is_special c = false →
  Ascii.eqb c backslash = false ∧ Ascii.eqb c "{" = false ∧ Ascii.eqb c "}" = false.
Proof. each_char c; vm_compute; intros; repeat split; congruence. Qed.

(** ** Placeholders are found in escaped text exactly where the template has them *)

Lemma escape_app (s t : string) : escape (s +:+ t) = escape s +:+ escape t.
Proof.
  induction s as [|c s IH]; [done|]. simpl. by rewrite IH, str_app_assoc.
Qed.

Lemma escape_digits (d : string) : forallb_str is_digit d = true → escape d = d.
Proof.
  induction d as [|c d IH]; [done|]. simpl. intros [Hc Hd]%andb_prop.
  unfold escape_char. by rewrite (digit_not_special _ Hc), IH.
Qed.

Lemma span_digits_escape (s : string) :
  span_digits (escape s) = let '(d, r) := span_digits s in (d, escape r).
Proof.
  induction s as [|c s IH]; [done|]. simpl. unfold escape_char.
  destruct (is_digit c) eqn:Hc.
  - rewrite (digit_not_special _ Hc). simpl. rewrite Hc, IH.
    by destruct (span_digits s).
  - destruct (is_special c) eqn:Hs; simpl; unfold escape_char; by rewrite ?Hs, ?Hc.
Qed.

Lemma strip_open_escape (s : string) :
  strip_prefix "%\{" (escape s) = escape <$> strip_prefix "%{" s.
Proof.
  destruct s as [|c s]; [done|]. simpl. unfold escape_char.
  destruct (is_special c) eqn:Hs.
  - destruct (special_cases _ Hs) as (Hp & _). simpl.
    by rewrite (Ascii.eqb_sym "%" c), Hp.
  - simpl. destruct (Ascii.eqb_spec "%" c) as [<-|]; [|done].
    destruct s as [|d s]; [done|]. simpl. unfold escape_char.
    destruct (is_special d) eqn:Hd; simpl.
    + by destruct (Ascii.eqb "{" d).
    + destruct (not_special_cases _ Hd) as (Hb & Ho & _).
      rewrite (Ascii.eqb_sym _ d), (Ascii.eqb_sym "{" d).
      by rewrite Hb, Ho.
Qed.

Lemma strip_close_escape (s : string) :
  strip_prefix "\}" (escape s) = escape <$> strip_prefix "}" s.
Proof.
  destruct s as [|c s]; [done|]. simpl. unfold escape_char.
  destruct (is_special c) eqn:Hs; simpl.
  - by destruct (Ascii.eqb "}" c).
  - destruct (not_special_cases _ Hs) as (Hb & _ & Hc).
    rewrite (Ascii.eqb_sym _ c), (Ascii.eqb_sym "}" c).
    by rewrite Hb, Hc.
Qed.

Lemma strip_G_escape (s : string) :
  strip_prefix "G" (escape s) = escape <$> strip_prefix "G" s.
Proof.
  destruct s as [|c s]; [done|]. simpl. unfold escape_char.
  destruct (is_special c) eqn:Hs; simpl.
  - destruct (special_cases _ Hs) as (_ & _ & Hg & _).
    by rewrite (Ascii.eqb_sym "G" c), Hg.
  - by destruct (Ascii.eqb "G" c).
Qed.

Lemma strip_S_escape (s : string) :
  strip_prefix "S" (escape s) = escape <$> strip_prefix "S" s.
Proof.
  destruct s as [|c s]; [done|]. simpl. unfold escape_char.
  destruct (is_special c) eqn:Hs; simpl.
  - destruct (special_cases _ Hs) as (_ & _ & _ & Hg).
    by rewrite (Ascii.eqb_sym "S" c), Hg.
  - by destruct (Ascii.eqb "S" c).
Qed.

Section match_placeholder_escape.
#[local] Arguments strip_prefix : simpl never.
#[local] Arguments span_digits : simpl never.

(** The token-capture pattern, which is written for escaped text, finds in
    [escape s] the placeholder that [s] starts with, if any. *)
Lemma match_placeholder_escape (s : string) :
  match_placeholder "%\{" "\}" (escape s)
  = (λ '(index, m, rest), (index, m, escape rest)) <$> match_placeholder "%{" "}" s.
Proof.
  unfold match_placeholder.
  rewrite strip_open_escape.
  destruct (strip_prefix "%{" s) as [s1|]; [|done]. simpl.
  rewrite span_digits_escape.
  destruct (span_digits s1) as [index s2].
  destruct (String.eqb index ""); [done|].
  rewrite strip_G_escape, strip_S_escape, !strip_close_escape.
  destruct (strip_prefix "G" s2) as [s3|]; simpl.
  - rewrite strip_close_escape.
    destruct (strip_prefix "}" s3) as [s4|]; simpl; [done|].
    destruct (strip_prefix "S" s2) as [s3'|]; simpl.
    + rewrite span_digits_escape. destruct (span_digits s3') as [n s4].
      destruct (String.eqb n ""); [by destruct (strip_prefix "}" s2)|].
      rewrite strip_close_escape.
      destruct (strip_prefix "}" s4); [done|]. by destruct (strip_prefix "}" s2).
    + by destruct (strip_prefix "}" s2).
  - destruct (strip_prefix "S" s2) as [s3'|]; simpl.
    + rewrite span_digits_escape. destruct (span_digits s3') as [n s4].
      destruct (String.eqb n ""); [by destruct (strip_prefix "}" s2)|].
      rewrite strip_close_escape.
      destruct (strip_prefix "}" s4); [done|]. by destruct (strip_prefix "}" s2).
    + by destruct (strip_prefix "}" s2).
Qed.

End match_placeholder_escape.

Lemma eqb_empty_false (s : string) : String.eqb s "" = false → s ≠ "".
Proof. by intros H ->. Qed.

Section match_placeholder_spec.
#[local] Arguments strip_prefix : simpl never.
#[local] Arguments span_digits : simpl never.

(** What a match of the placeholder syntax says about the text. *)
Lemma match_placeholder_spec (open close s index rest : string) (m : option string) :
  match_placeholder open close s = Some (index, m, rest) →
  digits index
  ∧ ((m = None ∧ s = open +:+ index +:+ close +:+ rest)
     ∨ (m = Some "G" ∧ s = open +:+ index +:+ "G" +:+ close +:+ rest)
     ∨ (∃ n, digits n ∧ m = Some ("S" +:+ n)
             ∧ s = open +:+ index +:+ "S" +:+ n +:+ close +:+ rest)).
Proof.
  unfold match_placeholder. intros H.
  destruct (strip_prefix open s) as [s1|] eqn:H1; [|done].
  apply strip_prefix_Some in H1 as ->. simpl in H.
  destruct (span_digits s1) as [i s2] eqn:H2.
  apply span_digits_spec in H2 as [-> Hi].
  destruct (String.eqb i "") eqn:Hne; [done|]. apply eqb_empty_false in Hne.
  assert (Hwithout : ∀ r, strip_prefix close s2 ≫= (λ s3, Some (i, @None string, s3)) = Some r →
    r = (index, m, rest) → digits index ∧ m = None
      ∧ open +:+ i +:+ s2 = open +:+ index +:+ close +:+ rest).
  { intros r Hr ->. destruct (strip_prefix close s2) as [s3|] eqn:Hc; simpl in Hr; [|done].
    apply strip_prefix_Some in Hc as ->. by simplify_eq. }
  destruct (strip_prefix "G" s2) as [s3|] eqn:HG; simpl in H.
  - destruct (strip_prefix close s3) as [s4|] eqn:Hc; simpl in H.
    { apply strip_prefix_Some in HG as ->. apply strip_prefix_Some in Hc as ->.
      simplify_eq. split; [done|]. right; by left. }
    destruct (strip_prefix "S" s2) as [s3'|] eqn:HS; simpl in H.
    { apply strip_prefix_Some in HG. apply strip_prefix_Some in HS. by simplify_eq. }
    destruct (Hwithout _ H eq_refl) as (? & ? & ?). split; [done|]. by left.
  - destruct (strip_prefix "S" s2) as [s3|] eqn:HS; simpl in H.
    + destruct (span_digits s3) as [n s4] eqn:H3.
      apply span_digits_spec in H3 as [-> Hn].
      destruct (String.eqb n "") eqn:Hnn.
      { destruct (Hwithout _ H eq_refl) as (? & ? & ?). split; [done|]. by left. }
      apply eqb_empty_false in Hnn.
      destruct (strip_prefix close s4) as [s5|] eqn:Hc; simpl in H.
      { apply strip_prefix_Some in HS as ->. apply strip_prefix_Some in Hc as ->.
        simplify_eq. split; [done|]. right; right. by exists n. }
      destruct (Hwithout _ H eq_refl) as (? & ? & ?). split; [done|]. by left.
    + destruct (Hwithout _ H eq_refl) as (? & ? & ?). split; [done|]. by left.
Qed.
End match_placeholder_spec.

(** The same, in terms of the placeholder's text. *)
Lemma match_placeholder_text (s index rest : string) (m : option string) :
  match_placeholder "%{" "}" s = Some (index, m, rest) →
  s = placeholder index (modifier_of m) +:+ rest
  ∧ digits index ∧ wf_modifier (modifier_of m)
  ∧ (m = None ∨ m = Some "G" ∨ ∃ n, digits n ∧ m = Some (String "S" n)).
Proof.
  intros H. apply match_placeholder_spec in H as (Hi & [(-> & ->)|[(-> & ->)|(n & Hn & -> & ->)]]).
  - split_and!; [|done|done|by left]. unfold placeholder. simpl.
    by rewrite !str_app_assoc.
  - split_and!; [|done|done|right; by left]. unfold placeholder. simpl.
    by rewrite !str_app_assoc.
  - split_and!; [|done|done|right; right; by exists n]. unfold placeholder. simpl.
    do 2 (simpl; rewrite ?str_app_assoc); done.
Qed.

(** ** [_unescape] undoes [re.escape] on text without newlines *)

Lemma existsb_str_app (p : ascii → bool) (s t : string) :
  existsb_str p (s +:+ t) = existsb_str p s || existsb_str p t.
Proof. induction s as [|c s IH]; [done|]. simpl. by rewrite IH, orb_assoc. Qed.

Lemma forallb_str_app (p : ascii → bool) (s t : string) :
  forallb_str p (s +:+ t) = forallb_str p s && forallb_str p t.
Proof. induction s as [|c s IH]; [done|]. simpl. by rewrite IH, andb_assoc. Qed.

Lemma unescape_escape (s : string) : has_newline s = false → _unescape (escape s) = s.
Proof.
  unfold has_newline. induction s as [|c s IH]; [done|]. simpl.
  intros [Hc Hs]%orb_false_elim. unfold escape_char.
  destruct (is_special c) eqn:Hsp; simpl.
  - rewrite (Ascii.eqb_sym c), Hc. by rewrite IH.
  - destruct (not_special_cases _ Hsp) as (-> & _). by rewrite IH.
Qed.

Lemma digits_no_newline (d : string) :
  forallb_str is_digit d = true → has_newline d = false.
Proof.
  unfold has_newline. induction d as [|c d IH]; [done|]. simpl.
  intros [Hc Hd]%andb_prop. rewrite (IH Hd), orb_false_r.
  destruct (Ascii.eqb_spec newline c) as [<-|]; [done|done].
Qed.

Lemma placeholder_no_newline (index : string) (m : modifier) :
  digits index → wf_modifier m → has_newline (placeholder index m) = false.
Proof.
  intros [_ Hi] Hm. unfold placeholder, has_newline.
  rewrite !existsb_str_app. fold (has_newline index).
  rewrite (digits_no_newline _ Hi). simpl.
  destruct m as [| |n]; simpl; [done|done|].
  fold (has_newline n). destruct Hm as [_ Hn]. by rewrite (digits_no_newline _ Hn).
Qed.

(** ** [re.sub] on an escaped template *)

Lemma sub_from_skip {St} (repl : token_match → St → result (option string * St))
    (subject x r : string) (st : St) :
  sub_from repl subject (String.length x) (x +:+ r) st = sub_from repl subject 0 r st.
Proof. induction x as [|c x IH]; [done|]. simpl. apply IH. Qed.

Lemma segments_from_skip (x r : string) :
  segments_from (String.length x) (x +:+ r) = segments_from 0 r.
Proof. induction x as [|c x IH]; [done|]. simpl. apply IH. Qed.

(** The replacement function on the match of a placeholder. *)
Lemma map_token_to_re_spec (g0 index subject : string) (m : option string) (seen : gset string) :
  (m = None ∨ m = Some "G" ∨ ∃ n, digits n ∧ m = Some (String "S" n)) →
  _map_token_to_re
    {| tm_group0 := g0; tm_index := index; tm_modifier := m; tm_string := subject |} seen
  = if decide (index ∈ seen)
    then Raise (ValueError ("Duplicate token index " +:+ _unescape g0 +:+ " in "
                            +:+ repr (_unescape subject)))
    else Ok (Some (token_regex index (modifier_of m)), {[index]} ∪ seen).
Proof.
  intros Hm. unfold _map_token_to_re. simpl.
  destruct (decide (index ∈ seen)) as [?|Hnotin]; [done|]. simpl.
  destruct Hm as [->|[->|(n & [Hn _] & ->)]]; [done|done|].
  by destruct n as [|c n'].
Qed.

Lemma token_capture_escape (subject s : string) :
  _TOKEN_CAPTURE_RE subject (escape s)
  = match match_placeholder "%{" "}" s with
    | Some (index, m, rest) =>
        Some {| tm_group0 :=
                  take_str (String.length (escape s) - String.length (escape rest)) (escape s);
                tm_index := index; tm_modifier := m; tm_string := subject |}
    | None => None
    end.
Proof.
  unfold _TOKEN_CAPTURE_RE. rewrite match_placeholder_escape.
  by destruct (match_placeholder "%{" "}" s) as [[[index m] rest]|].
Qed.

Lemma token_capture_not_percent (subject : string) (c : ascii) (s : string) :
  Ascii.eqb c "%" = false → _TOKEN_CAPTURE_RE subject (String c s) = None.
Proof.
  intros Hc. unfold _TOKEN_CAPTURE_RE, match_placeholder. simpl.
  by rewrite (Ascii.eqb_sym "%" c), Hc.
Qed.

(** [re.sub] with [_map_token_to_re] on [escape t] produces the pattern text
    of the segments of [t], or the error for the first repeated index. *)
Lemma sub_from_escape (n : nat) (t subject : string) (seen : gset string) :
  String.length t ≤ n →
  sub_from _map_token_to_re subject 0 (escape t) seen
  = render (_unescape subject) (segments t) seen.
Proof.
  revert t seen. induction n as [|n IH]; intros t seen Hlen.
  { destruct t; [done|simpl in Hlen; lia]. }
  destruct t as [|c t]; [done|].
  unfold segments. cbn [segments_from].
  destruct (match_placeholder "%{" "}" (String c t)) as [[[index m] rest]|] eqn:Hm.
  - pose proof (match_placeholder_text _ _ _ _ Hm) as (Ht & Hi & Hwf & Hshape).
    assert (Hesc := token_capture_escape subject (String c t)). rewrite Hm in Hesc.
    unfold placeholder in Ht. simpl in Ht. injection Ht as -> Ht.
    set (ptail := String "{" (index +:+ modifier_text (modifier_of m) +:+ "}")) in *.
    assert (Hp : placeholder index (modifier_of m) = String "%" ptail) by done.
    assert (Hlr : String.length rest ≤ n).
    { rewrite Ht in Hlen. simpl in Hlen. rewrite str_length_app in Hlen. lia. }
    assert (Hescape : escape (String "%" t) = String "%" (escape ptail) +:+ escape rest).
    { rewrite Ht. simpl. by rewrite escape_app. }
    rewrite Hescape in Hesc |- *. rewrite take_str_app_diff in Hesc.
    cbn [sub_from String.append]. fold (String.append (escape ptail) (escape rest)).
    change (String "%" (escape ptail +:+ escape rest))
      with (String "%" (escape ptail) +:+ escape rest).
    rewrite Hesc. rewrite (map_token_to_re_spec _ _ _ _ _ Hshape).
    change (String "%" (escape ptail)) with (escape (String "%" ptail)).
    rewrite <- Hp, (unescape_escape _ (placeholder_no_newline _ _ Hi Hwf)).
    cbn [render]. unfold duplicate_message.
    destruct (decide (index ∈ seen)); [done|].
    cbn [mbind result_bind tm_group0]. rewrite Hp. cbn [escape String.length].
    replace (String.length (escape_char "%" +:+ escape ptail) - 1)
      with (String.length (escape ptail))
      by (change (escape_char "%") with "%"; simpl; lia).
    assert (Hskip1 := sub_from_skip _map_token_to_re subject
                        (String "%" (escape ptail)) (escape rest) ({[index]} ∪ seen)).
    cbn [String.length String.append sub_from] in Hskip1.
    rewrite Hskip1, (IH _ _ Hlr).
    replace (S (String.length t) - String.length rest - 1)
      with (String.length ptail)
      by (rewrite Ht; unfold ptail; simpl; rewrite !str_length_app; simpl; lia).
    rewrite Ht. change (String "{" (?a +:+ rest)) with (ptail +:+ rest).
    rewrite segments_from_skip. done.
  - cbn [render escape]. unfold escape_char.
    assert (Hlt : String.length t ≤ n) by (simpl in Hlen; lia).
    destruct (is_special c) eqn:Hs.
    + destruct (special_cases _ Hs) as (Hp & _).
      cbn [String.append sub_from].
      rewrite (token_capture_not_percent _ "\") by done.
      rewrite (token_capture_not_percent _ c) by done.
      rewrite (IH _ _ Hlt). unfold segments.
      by destruct (render _ _ _).
    + assert (Hesc := token_capture_escape subject (String c t)). rewrite Hm in Hesc.
      cbn [escape] in Hesc. unfold escape_char in Hesc. rewrite Hs in Hesc.
      cbn [String.append] in Hesc |- *. cbn [sub_from]. rewrite Hesc.
      rewrite (IH _ _ Hlt). unfold segments.
      by destruct (render _ _ _).
Qed.

(** ** Parsing the generated pattern text *)

Lemma not_repeat_cases (c : ascii) :
  is_repeat_char c = false → Ascii.eqb c "*" = false ∧ Ascii.eqb c "{" = false.
Proof. each_char c; vm_compute; intros; split; congruence. Qed.

Lemma parse_repeat_plain (atom : re) (s : string) :
  plain_start s → parse_repeat atom s = Ok (atom, s).
Proof.
  destruct s as [|c s]; [done|]. simpl. intros Hc.
  destruct (not_repeat_cases _ Hc) as [-> ->]. by rewrite Hc.
Qed.

Lemma no_repeat_follows_plain (s : string) : plain_start s → no_repeat_follows s = true.
Proof. destruct s as [|c s]; [done|]. simpl. by intros ->. Qed.

Lemma escape_char_plain (c : ascii) (s : string) : plain_start (escape_char c +:+ s).
Proof. unfold escape_char. each_char c; vm_compute; done. Qed.

Lemma parse_seq_literal (f : nat) (c : ascii) (s : string) :
  parse_seq (S f) (escape_char c +:+ s)
  = '(item, s3) ← parse_repeat (Chr (CLit c)) s;
    '(rest, s4) ← parse_seq f s3;
    Ok (Seq item rest, s4).
Proof. each_char c; reflexivity. Qed.

Lemma digit_cases (c : ascii) :
  is_digit c = true →
  Ascii.eqb c ">" = false ∧ is_ascii_alpha c || is_digit c || Ascii.eqb c "_" = true
  ∧ Ascii.eqb c "}" = false.
Proof. each_char c; vm_compute; intros; repeat split; congruence. Qed.

Lemma span_until_digits (d s : string) :
  forallb_str is_digit d = true → span_until ">" (d +:+ String ">" s) = Some (d, s).
Proof.
  induction d as [|c d IH]; [done|]. simpl. intros [Hc Hd]%andb_prop.
  destruct (digit_cases _ Hc) as (-> & _). by rewrite (IH Hd).
Qed.

Lemma group_name_identifier (index : string) :
  forallb_str is_digit index = true → is_identifier (group_name index) = true.
Proof.
  intros Hd. unfold group_name, is_identifier. simpl.
  induction index as [|c d IH]; [done|]. simpl in *.
  apply andb_prop in Hd as [Hc Hd]. destruct (digit_cases _ Hc) as (_ & -> & _).
  by apply IH.
Qed.

(** A named group whose name is [token_<digits>]. *)
Lemma parse_seq_group (f : nat) (index s : string) :
  forallb_str is_digit index = true →
  parse_seq (S f) ("(?P<" +:+ group_name index +:+ ">" +:+ s)
  = '(body, s4) ← parse_seq f s;
    s5 ← expect ")" s4;
    '(item, s6) ← parse_repeat (Grp (group_name index) body) s5;
    '(rest, s7) ← parse_seq f s6;
    Ok (Seq item rest, s7).
Proof.
  intros Hd. pose proof (span_until_digits index s Hd) as Hspan.
  pose proof (group_name_identifier index Hd) as Hid.
  cbn [parse_seq String.append]. unfold group_name, _TOKEN_GROUP_PREFIX in *.
  cbn [String.append] in *.
  cbn -[parse_seq is_identifier span_until parse_repeat expect].
  cbn [span_until]. cbn -[parse_seq is_identifier span_until parse_repeat expect].
  rewrite Hspan. cbn -[parse_seq is_identifier span_until parse_repeat expect].
  rewrite Hid.
  destruct (parse_seq f s) as [[body s4]|]; [|done].
  cbn -[parse_seq is_identifier span_until parse_repeat expect].
  by destruct (expect ")" s4).
Qed.

Lemma parse_seq_lazy (f : nat) (s : string) :
  parse_seq (S (S f)) (modifier_regex Lazy +:+ String ")" s)
  = Ok (modifier_ast Lazy, String ")" s).
Proof. reflexivity. Qed.

Lemma parse_seq_greedy (f : nat) (s : string) :
  parse_seq (S (S f)) (modifier_regex Greedy +:+ String ")" s)
  = Ok (modifier_ast Greedy, String ")" s).
Proof. reflexivity. Qed.

Lemma parse_repeat_count (atom : re) (count s : string) :
  digits count → plain_start s →
  atom ≠ Bol → atom ≠ Eol →
  parse_repeat atom (String "{" (count +:+ String "}" s))
  = match count_error count with
    | Some e => Raise e
    | None => Ok (Rep (int count) atom, s)
    end.
Proof.
  intros [Hne Hd] Hs Hb He.
  cbn -[span_digits MAXREPEAT int int_conversion].
  rewrite (span_digits_app count (String "}" s) Hd) by done.
  destruct (String.eqb_spec count "") as [|_]; [done|].
  rewrite (no_repeat_follows_plain _ Hs).
  unfold int_conversion, count_error, overflow.
  destruct atom; try done;
    destruct (too_long count); try done;
    cbn [andb negb mbind result_bind]; by destruct (MAXREPEAT <=? int count)%N.
Qed.

Lemma parse_seq_spaces (f : nat) (count s : string) :
  digits count →
  parse_seq (S (S (S (S (S f))))) (modifier_regex (SpacesLimited count) +:+ String ")" s)
  = match count_error count with
    | Some e => Raise e
    | None => Ok (modifier_ast (SpacesLimited count), String ")" s)
    end.
Proof.
  intros Hc. unfold modifier_regex, modifier_ast.
  set (body := Seq (Star true CNotSpace) (Seq (Chr CSpace) (Seq (Star true CNotSpace) Eps))).
  rewrite !str_app_assoc. cbn [String.append].
  change (parse_seq _ _)
    with ('(item, s3) ← parse_repeat body
                         (String "{" (count +:+ String "}" ("\S*" +:+ String ")" s)));
          '(rest, s4) ← parse_seq (S (S (S (S f)))) s3;
          Ok (Seq item rest, s4)).
  rewrite parse_repeat_count by done.
  by destruct (count_error count).
Qed.

Lemma parse_seq_token (f : nat) (index : string) (m : modifier) (s : string) :
  digits index → wf_modifier m → plain_start s → 5 ≤ f →
  parse_seq (S f) (token_regex index m +:+ s)
  = match rejected (Token index m) with
    | Some e => Raise e
    | None =>
        '(rest, s7) ← parse_seq f s;
        Ok (Seq (Grp (group_name index) (modifier_ast m)) rest, s7)
    end.
Proof.
  intros [_ Hi] Hm Hs Hf. unfold token_regex.
  rewrite !str_app_assoc. rewrite (parse_seq_group _ _ _ Hi).
  do 5 (destruct f as [|f]; [lia|]).
  change (String.append ")" s) with (String ")" s).
  destruct m as [| |count].
  - rewrite parse_seq_lazy. cbn [mbind result_bind expect rejected].
    cbn -[parse_seq parse_repeat]. rewrite (parse_repeat_plain _ _ Hs).
    cbn -[parse_seq parse_repeat]. done.
  - rewrite parse_seq_greedy. cbn [mbind result_bind expect rejected].
    cbn -[parse_seq parse_repeat]. rewrite (parse_repeat_plain _ _ Hs).
    cbn -[parse_seq parse_repeat]. done.
  - rewrite (parse_seq_spaces _ _ _ Hm). cbn [rejected].
    destruct (count_error count); [done|].
    cbn -[parse_seq parse_repeat]. rewrite (parse_repeat_plain _ _ Hs).
    cbn -[parse_seq parse_repeat]. done.
Qed.

Lemma segments_text_plain (l : list segment) : plain_start (segments_text l +:+ "$").
Proof.
  destruct l as [|[c|index m] l]; [done| |done].
  unfold segments_text. simpl. rewrite str_app_assoc. apply escape_char_plain.
Qed.

Lemma escape_char_length (c : ascii) : 1 ≤ String.length (escape_char c).
Proof. unfold escape_char. destruct (is_special c); simpl; lia. Qed.

Lemma token_regex_length (index : string) (m : modifier) :
  12 ≤ String.length (token_regex index m).
Proof.
  unfold token_regex, group_name, _TOKEN_GROUP_PREFIX.
  do 3 (simpl; rewrite ?str_length_app). lia.
Qed.

(** The generated pattern text parses to the syntax tree of the segments,
    unless a count runs into an error. *)
Lemma parse_seq_segments (l : list segment) (f : nat) :
  Forall wf_segment l →
  String.length (segments_text l) + 2 ≤ f →
  parse_seq f (segments_text l +:+ "$")
  = match first_rejected l with
    | Some e => Raise e
    | None => Ok (segments_ast l, "")
    end.
Proof.
  revert f. induction l as [|[c|index m] l IH]; intros f Hwf Hf.
  - do 2 (destruct f as [|f]; [simpl in Hf; lia|]). reflexivity.
  - unfold segments_text in *. cbn [map join first_rejected rejected segment_text] in *.
    rewrite str_length_app in Hf. pose proof (escape_char_length c).
    destruct f as [|f]; [lia|].
    rewrite str_app_assoc, parse_seq_literal.
    rewrite (parse_repeat_plain _ _ (segments_text_plain l)).
    cbn [mbind result_bind]. unfold segments_text.
    inversion Hwf as [|? ? _ Hwf']; subst.
    rewrite IH by (done || lia).
    by destruct (first_rejected l).
  - unfold segments_text in *. cbn [map join first_rejected segment_text] in *.
    rewrite str_length_app in Hf. pose proof (token_regex_length index m).
    destruct f as [|f]; [lia|].
    inversion Hwf as [|? ? Hwf0 Hwf']; subst. destruct Hwf0 as [Hi Hm].
    rewrite str_app_assoc.
    rewrite (parse_seq_token _ _ _ _ Hi Hm (segments_text_plain l)) by lia.
    destruct (rejected (Token index m)); [done|].
    unfold segments_text. rewrite IH by (done || lia).
    by destruct (first_rejected l).
Qed.

Lemma segments_cons_token (t index rest : string) (m : option string) :
  match_placeholder "%{" "}" t = Some (index, m, rest) →
  segments t = Token index (modifier_of m) :: segments rest.
Proof.
  intros Hm. pose proof (match_placeholder_text _ _ _ _ Hm) as (Ht & _).
  unfold segments. destruct t as [|c t]; [done|]. cbn [segments_from]. rewrite Hm.
  f_equal. unfold placeholder in Ht. simpl in Ht. injection Ht as -> Ht.
  rewrite Ht at 2.
  set (ptail := String "{" (index +:+ modifier_text (modifier_of m) +:+ "}")).
  change (String "{" (?a +:+ rest)) with (ptail +:+ rest).
  replace (String.length (String "%" t) - String.length rest - 1) with (String.length ptail).
  - apply segments_from_skip.
  - rewrite Ht. unfold ptail. simpl. rewrite !str_length_app. simpl. lia.
Qed.

Lemma segments_cons_literal (c : ascii) (t : string) :
  match_placeholder "%{" "}" (String c t) = None →
  segments (String c t) = Literal c :: segments t.
Proof. intros Hm. unfold segments. cbn [segments_from]. by rewrite Hm. Qed.

Lemma match_placeholder_shorter (t index rest : string) (m : option string) :
  match_placeholder "%{" "}" t = Some (index, m, rest) →
  String.length rest < String.length t.
Proof.
  intros Hm. pose proof (match_placeholder_text _ _ _ _ Hm) as (-> & _).
  rewrite str_length_app. unfold placeholder. simpl. lia.
Qed.

(** Induction on a template, one segment at a time. *)
Lemma template_ind (P : string → Prop) :
  P "" →
  (∀ c t, match_placeholder "%{" "}" (String c t) = None → P t → P (String c t)) →
  (∀ t index m rest,
     match_placeholder "%{" "}" t = Some (index, m, rest) → P rest → P t) →
  ∀ t, P t.
Proof.
  intros Hnil Hlit Htok t.
  assert (H : ∀ n t, String.length t ≤ n → P t); [|by apply (H (String.length t))].
  clear t. induction n as [|n IH]; intros t Hlen.
  { destruct t; [done|simpl in Hlen; lia]. }
  destruct t as [|c t]; [done|].
  destruct (match_placeholder "%{" "}" (String c t)) as [[[index m] rest]|] eqn:Hm.
  - apply (Htok _ _ _ _ Hm). apply IH.
    apply match_placeholder_shorter in Hm. simpl in *. lia.
  - apply Hlit; [done|]. apply IH. simpl in Hlen. lia.
Qed.

Lemma segments_wf (t : string) : Forall wf_segment (segments t).
Proof.
  induction t as [|c t Hm IH|t index m rest Hm IH] using template_ind.
  - constructor.
  - rewrite (segments_cons_literal _ _ Hm). by constructor.
  - rewrite (segments_cons_token _ _ _ _ Hm).
    pose proof (match_placeholder_text _ _ _ _ Hm) as (_ & Hi & Hwf & _).
    by constructor.
Qed.

Lemma render_spec (shown : string) (l : list segment) (seen : gset string) :
  render shown l seen
  = match first_duplicate l seen with
    | Some (index, m) => Raise (ValueError (duplicate_message index m shown))
    | None => Ok (segments_text l)
    end.
Proof.
  revert seen. induction l as [|[c|index m] l IH]; intros seen; [done|..].
  - cbn [render first_duplicate]. rewrite IH.
    by destruct (first_duplicate l seen) as [[? ?]|].
  - cbn [render first_duplicate]. destruct (decide (index ∈ seen)); [done|].
    rewrite IH. by destruct (first_duplicate l _) as [[? ?]|].
Qed.

Lemma first_duplicate_None (l : list segment) (seen : gset string) :
  first_duplicate l seen = None
  ↔ NoDup (indices l) ∧ ∀ i, i ∈ indices l → i ∉ seen.
Proof.
  revert seen. induction l as [|[c|index m] l IH]; intros seen.
  - split; [|done]. intros _. split; [constructor|]. intros i Hi. by apply elem_of_nil in Hi.
  - apply IH.
  - cbn [first_duplicate indices omap list_omap]. fold (indices l).
    destruct (decide (index ∈ seen)) as [Hin|Hnotin].
    + split; [done|]. intros [_ H]. exfalso. apply (H index); [|done]. by left.
    + rewrite IH, NoDup_cons. split.
      * intros [Hnd H]. split_and!; [|done|].
        -- intros Hi. apply (H _ Hi). apply elem_of_union. left. by apply elem_of_singleton.
        -- intros i [->|Hi]%elem_of_cons; [done|]. specialize (H _ Hi).
           intros Hs. apply H. apply elem_of_union. by right.
      * intros [[Hni Hnd] H]. split; [done|]. intros i Hi.
        assert (i ≠ index) by (by intros ->).
        assert (i ∉ seen) by (apply H; by right).
        by intros [?%elem_of_singleton|?]%elem_of_union.
Qed.

Lemma modifier_ast_no_groups (m : modifier) : group_names (modifier_ast m) = [].
Proof. by destruct m. Qed.

Lemma segments_ast_group_names (l : list segment) :
  group_names (segments_ast l) = group_name <$> indices l.
Proof.
  induction l as [|[c|index m] l IH]; [done|done|].
  cbn [segments_ast group_names]. rewrite modifier_ast_no_groups, IH. done.
Qed.

#[global] Instance group_name_inj : Inj (=) (=) group_name.
Proof. intros i j H. unfold group_name in H. by apply (inj (String.app _)) in H. Qed.

Lemma re_compile_segments (l : list segment) :
  Forall wf_segment l → NoDup (indices l) →
  re_compile ("^" +:+ segments_text l +:+ "$")
  = match first_rejected l with
    | Some e => Raise e
    | None => Ok {| p_pattern := "^" +:+ segments_text l +:+ "$";
                    p_ast := Seq Bol (segments_ast l) |}
    end.
Proof.
  intros Hwf Hnd. unfold re_compile.
  change ("^" +:+ segments_text l +:+ "$") with (String "^" (segments_text l +:+ "$")).
  cbn [String.length].
  change (parse_seq (S (S ?n)) (String "^" ?s))
    with ('(item, s3) ← parse_repeat Bol s;
          '(rest, s4) ← parse_seq (S n) s3;
          Ok (Seq item rest, s4)).
  rewrite (parse_repeat_plain _ _ (segments_text_plain l)). cbn [mbind result_bind].
  rewrite parse_seq_segments; [|done|rewrite str_length_app; simpl; lia].
  destruct (first_rejected l); [done|]. cbn [mbind result_bind].
  cbn [group_names app]. rewrite segments_ast_group_names.
  destruct (decide (NoDup (group_name <$> indices l))) as [|Hn]; [done|].
  exfalso. apply Hn. by apply (NoDup_fmap_2 _).
Qed.

(** What [map_pattern_to_re] does on an escaped template: the error for the
    first repeated index, else the error of the first count that has too many
    digits or is too large, else the compiled pattern. *)
Lemma map_pattern_to_re_spec (t : string) :
  map_pattern_to_re (escape t)
  = match first_duplicate (segments t) ∅ with
    | Some (index, m) =>
        Raise (ValueError (duplicate_message index m (_unescape (escape t))))
    | None =>
        match first_rejected (segments t) with
        | Some e => Raise e
        | None => Ok (compiled t)
        end
    end.
Proof.
  unfold map_pattern_to_re, re_sub.
  rewrite (sub_from_escape (String.length t)) by done.
  rewrite render_spec.
  destruct (first_duplicate (segments t) ∅) as [[index m]|] eqn:Hd; [done|].
  cbn [mbind result_bind]. apply first_duplicate_None in Hd as [Hnd _].
  by rewrite (re_compile_segments _ (segments_wf t) Hnd).
Qed.

(** ** What the backtracking matcher computes *)

Lemma star_min_None (p : ascii → bool) (k : cont) (i : nat) (x rest : string) (g : groups) :
  star_min p k i (x +:+ rest) g = None → forallb_str p x = true →
  k (i + String.length x) rest g = None.
Proof.
  revert i. induction x as [|c x IH]; intros i H Hp; simpl in *.
  - rewrite Nat.add_0_r. destruct rest; simpl in H; by destruct (k i _ g).
  - apply andb_prop in Hp as [Hc Hp]. rewrite Hc in H.
    destruct (k i _ g); [done|].
    replace (i + S (String.length x)) with (S i + String.length x) by lia.
    by apply IH.
Qed.

Lemma star_max_None (p : ascii → bool) (k : cont) (i : nat) (x rest : string) (g : groups) :
  star_max p k i (x +:+ rest) g = None → forallb_str p x = true →
  k (i + String.length x) rest g = None.
Proof.
  revert i. induction x as [|c x IH]; intros i H Hp; simpl in *.
  - rewrite Nat.add_0_r. destruct rest as [|c rest]; simpl in H; [done|].
    destruct (p c); [|done]. by destruct (star_max p k (S i) rest g).
  - apply andb_prop in Hp as [Hc Hp]. rewrite Hc in H.
    destruct (star_max p k (S i) (x +:+ rest) g) eqn:Hs; [done|].
    replace (i + S (String.length x)) with (S i + String.length x) by lia.
    by apply IH.
Qed.

(** Lazy repetition stops at the first run, in order of length, after which
    the continuation succeeds. *)
Lemma star_min_sound (p : ascii → bool) (k : cont) (i : nat) (s : string) (g : groups)
    (res : nat * groups) :
  star_min p k i s g = Some res →
  ∃ x rest, s = x +:+ rest ∧ forallb_str p x = true
    ∧ k (i + String.length x) rest g = Some res
    ∧ ∀ x' rest', s = x' +:+ rest' → String.length x' < String.length x →
        k (i + String.length x') rest' g = None.
Proof.
  revert i. induction s as [|c s IH]; intros i H; simpl in H.
  - destruct (k i "" g) as [r|] eqn:Hk; [|done]. simplify_eq.
    exists "", "". rewrite Nat.add_0_r. split_and!; [done..|]. simpl. lia.
  - destruct (k i (String c s) g) as [r|] eqn:Hk.
    + simplify_eq. exists "", (String c s). rewrite Nat.add_0_r.
      split_and!; [done..|]. simpl. lia.
    + destruct (p c) eqn:Hc; [|done].
      destruct (IH _ H) as (x & rest & -> & Hx & Hres & Hmin).
      exists (String c x), rest. simpl. rewrite Hc, Hx.
      replace (i + S (String.length x)) with (S i + String.length x) by lia.
      split_and!; [done..|]. intros x' rest' Heq Hlt.
      destruct x' as [|c' x'].
      * simpl in Heq. subst rest'. by rewrite Nat.add_0_r.
      * simpl in Heq. injection Heq as <- Heq. simpl in *.
        replace (i + S (String.length x')) with (S i + String.length x') by lia.
        apply Hmin; [done|lia].
Qed.

(** Greedy repetition stops at the first run, from the longest down, after
    which the continuation succeeds. *)
Lemma star_max_sound (p : ascii → bool) (k : cont) (i : nat) (s : string) (g : groups)
    (res : nat * groups) :
  star_max p k i s g = Some res →
  ∃ x rest, s = x +:+ rest ∧ forallb_str p x = true
    ∧ k (i + String.length x) rest g = Some res
    ∧ ∀ x' rest', s = x' +:+ rest' → forallb_str p x' = true →
        String.length x < String.length x' →
        k (i + String.length x') rest' g = None.
Proof.
  revert i. induction s as [|c s IH]; intros i H; simpl in H.
  - exists "", "". rewrite Nat.add_0_r. split_and!; [done..|].
    intros [|??] ? ?; [simpl; lia|done].
  - assert (Hstop : k i (String c s) g = Some res →
      (∀ x' rest', s = x' +:+ rest' → forallb_str p x' = true →
         k (S i + String.length x') rest' g = None) →
      ∃ x rest, String c s = x +:+ rest ∧ forallb_str p x = true
        ∧ k (i + String.length x) rest g = Some res
        ∧ ∀ x' rest', String c s = x' +:+ rest' → forallb_str p x' = true →
            String.length x < String.length x' →
            k (i + String.length x') rest' g = None).
    { intros Hk Hnone. exists "", (String c s). rewrite Nat.add_0_r.
      split_and!; [done..|].
      intros [|c' x'] rest' Heq Hp Hlt; [simpl in Hlt; lia|].
      simpl in Heq, Hp. injection Heq as <- Heq. apply andb_prop in Hp as [_ Hp].
      simpl. replace (i + S (String.length x')) with (S i + String.length x') by lia.
      by apply Hnone. }
    destruct (p c) eqn:Hc.
    + destruct (star_max p k (S i) s g) as [r|] eqn:Hs.
      * simplify_eq. destruct (IH _ Hs) as (x & rest & -> & Hx & Hres & Hmax).
        exists (String c x), rest. simpl. rewrite Hc, Hx.
        replace (i + S (String.length x)) with (S i + String.length x) by lia.
        split_and!; [done..|]. intros [|c' x'] rest' Heq Hp Hlt; [simpl in Hlt; lia|].
        simpl in Heq, Hp, Hlt. injection Heq as <- Heq. apply andb_prop in Hp as [_ Hp].
        simpl. replace (i + S (String.length x')) with (S i + String.length x') by lia.
        apply Hmax; [done..|lia].
      * apply Hstop; [done|]. intros x' rest' -> Hp. by apply (star_max_None p).
    + exists "", (String c s). rewrite Nat.add_0_r. split_and!; [done..|].
      intros [|c' x'] rest' Heq Hp Hlt; [simpl in Hlt; lia|].
      simpl in Heq, Hp. injection Heq as <- Heq. by rewrite Hc in Hp.
Qed.

(** A successful run of the matcher decomposes the text: [r] matches a
    prefix and the continuation succeeds on what follows. *)
Lemma exec_sound (r : re) (k : cont) (i : nat) (s : string) (g : groups)
    (res : nat * groups) :
  exec r k i s g = Some res →
  ∃ x rest g', s = x +:+ rest ∧ den r i x rest g g'
    ∧ k (i + String.length x) rest g' = Some res.
Proof.
  revert k i s g. induction r as [|cs| | |greedy cs|n r IH|name r IH|r1 IH1 r2 IH2];
    intros k i s g H; cbn [exec den] in *.
  - exists "", s, g. by rewrite Nat.add_0_r.
  - destruct s as [|c s]; [done|]. destruct (cset_match cs c) eqn:Hc; [|done].
    exists (String c ""), s, g. simpl. rewrite Nat.add_1_r. by eauto 10.
  - destruct (Nat.eqb_spec i 0) as [->|]; [|done]. exists "", s, g. by eauto.
  - destruct (at_end s) eqn:He; [|done]. exists "", s, g. rewrite Nat.add_0_r. by eauto.
  - destruct greedy.
    + apply star_max_sound in H as (x & rest & -> & Hx & Hk & _). by exists x, rest, g.
    + apply star_min_sound in H as (x & rest & -> & Hx & Hk & _). by exists x, rest, g.
  - revert k i s g H. induction (N.to_nat n) as [|m IHm]; intros k i s g H; simpl in *.
    + exists "", s, g. by rewrite Nat.add_0_r.
    + apply IH in H as (x1 & rest1 & g1 & -> & Hd1 & H).
      apply IHm in H as (x2 & rest & g2 & -> & Hd2 & H).
      exists (x1 +:+ x2), rest, g2. rewrite str_app_assoc, str_length_app, Nat.add_assoc.
      split_and!; [done| |done]. by exists x1, x2, g1.
  - apply IH in H as (x & rest & g' & -> & Hd & H).
    replace (i + String.length x - i) with (String.length x) in H by lia.
    rewrite take_str_app in H. exists x, rest, (<[name:=x]> g'). by eauto.
  - apply IH1 in H as (x1 & rest1 & g1 & -> & Hd1 & H).
    apply IH2 in H as (x2 & rest & g2 & -> & Hd2 & H).
    exists (x1 +:+ x2), rest, g2. rewrite str_app_assoc, str_length_app, Nat.add_assoc.
    split_and!; [done| |done]. by exists x1, x2, g1.
Qed.

(** Conversely, the matcher succeeds whenever some decomposition exists
    after which the continuation succeeds. *)
Lemma exec_complete (r : re) (k : cont) (i : nat) (x rest : string) (g g' : groups) :
  den r i x rest g g' →
  is_Some (k (i + String.length x) rest g') →
  is_Some (exec r k i (x +:+ rest) g).
Proof.
  revert k i x rest g g'.
  induction r as [|cs| | |greedy cs|n r IH|name r IH|r1 IH1 r2 IH2];
    intros k i x rest g g' Hd Hk; cbn [exec den] in *.
  - destruct Hd as [-> ->]. by rewrite Nat.add_0_r in Hk.
  - destruct Hd as (c & -> & Hc & ->). simpl in *. rewrite Hc.
    by rewrite Nat.add_1_r in Hk.
  - destruct Hd as (-> & -> & ->). done.
  - destruct Hd as (-> & He & ->). simpl. rewrite He. by rewrite Nat.add_0_r in Hk.
  - destruct Hd as [Hx ->]. destruct greedy.
    + destruct (star_max _ k i (x +:+ rest) g) eqn:Hs; [done|].
      apply star_max_None in Hs; [|done]. rewrite Hs in Hk. by destruct Hk.
    + destruct (star_min _ k i (x +:+ rest) g) eqn:Hs; [done|].
      apply star_min_None in Hs; [|done]. rewrite Hs in Hk. by destruct Hk.
  - revert k i x rest g g' Hd Hk.
    induction (N.to_nat n) as [|m IHm]; intros k i x rest g g' Hd Hk; simpl in *.
    + destruct Hd as [-> ->]. by rewrite Nat.add_0_r in Hk.
    + destruct Hd as (x1 & x2 & gm & -> & Hd1 & Hd2).
      rewrite str_app_assoc. apply (IH _ _ _ _ _ _ Hd1).
      apply (IHm _ _ _ _ _ _ Hd2). by rewrite str_length_app, Nat.add_assoc in Hk.
  - destruct Hd as (gm & Hd & ->). apply (IH _ _ _ _ _ _ Hd).
    replace (i + String.length x - i) with (String.length x) by lia.
    by rewrite take_str_app.
  - destruct Hd as (x1 & x2 & gm & -> & Hd1 & Hd2).
    rewrite str_app_assoc. apply (IH1 _ _ _ _ _ _ Hd1).
    apply (IH2 _ _ _ _ _ _ Hd2). by rewrite str_length_app, Nat.add_assoc in Hk.
Qed.

(** ** What a compiled template matches *)

Lemma any_no_newline (x : string) :
  forallb_str (cset_match CAny) x = true ↔ has_newline x = false.
Proof.
  unfold has_newline. induction x as [|c x IH]; [done|]. simpl.
  rewrite andb_true_iff, orb_false_iff, IH, negb_true_iff, (Ascii.eqb_sym c). done.
Qed.

Lemma count_spaces_app (x y : string) :
  count_spaces (x +:+ y) = count_spaces x + count_spaces y.
Proof. induction x as [|c x IH]; [done|]. simpl. rewrite IH. lia. Qed.

Lemma not_space_count (x : string) :
  forallb_str (cset_match CNotSpace) x = true ↔ count_spaces x = 0.
Proof.
  induction x as [|c x IH]; [done|]. simpl.
  rewrite andb_true_iff, IH. destruct (is_space c); simpl; [|tauto].
  split; [by intros [? _]|lia].
Qed.

Lemma count_spaces_succ (x : string) (n : nat) :
  count_spaces x = S n →
  ∃ a w x', x = a +:+ String w x' ∧ count_spaces a = 0 ∧ is_space w = true
    ∧ count_spaces x' = n.
Proof.
  induction x as [|c x IH]; [done|]. simpl. destruct (is_space c) eqn:Hc.
  - intros [= H]. by exists "", c, x.
  - intros H. destruct (IH H) as (a & w & x' & -> & Ha & Hw & Hx').
    exists (String c a), w, x'. simpl. by rewrite Hc.
Qed.

Lemma den_one_space (i : nat) (x rest : string) (g g' : groups) :
  den one_space i x rest g g' ↔ count_spaces x = 1 ∧ g' = g.
Proof.
  unfold one_space. cbn [den]. split.
  - intros (a & y & ? & -> & [Ha ->] & w' & z & ? & -> & (w & -> & Hw & ->)
            & b & e & ? & -> & [Hb ->] & -> & ->).
    apply not_space_count in Ha, Hb. simpl in Hw.
    rewrite !count_spaces_app. simpl. rewrite Hw, Ha, Hb. done.
  - intros [Hx ->]. apply count_spaces_succ in Hx as (a & w & b & -> & Ha & Hw & Hb).
    exists a, (String w b), g. split_and!; [done|by apply not_space_count|done|].
    exists (String w ""), b, g. split_and!; [done|by exists w|].
    exists b, "", g. rewrite str_app_nil_r. split_and!; [done|by apply not_space_count|done..].
Qed.

Lemma iter_one_space_count (n i : nat) (x rest : string) (g g' : groups) :
  iter_den n (den one_space) i x rest g g' → count_spaces x = n ∧ g' = g.
Proof.
  revert i x g. induction n as [|n IH]; intros i x g; cbn [iter_den].
  - by intros [-> ->].
  - intros (x1 & x2 & gm & -> & [H1 ->]%den_one_space & [H2 ->]%IH).
    rewrite count_spaces_app. split; [lia|done].
Qed.

Lemma count_iter_one_space (n i : nat) (x rest : string) (g : groups) :
  count_spaces x = n →
  ∃ x1 x2, x = x1 +:+ x2 ∧ iter_den n (den one_space) i x1 (x2 +:+ rest) g g
    ∧ count_spaces x2 = 0.
Proof.
  revert i x. induction n as [|n IH]; intros i x Hx.
  - by exists "", x.
  - apply count_spaces_succ in Hx as (a & w & x' & -> & Ha & Hw & Hx').
    destruct (IH (i + String.length (a +:+ String w "")) x' Hx')
      as (x1 & x2 & -> & Hit & Hx2).
    exists ((a +:+ String w "") +:+ x1), x2. split_and!; [|
      |done].
    + rewrite !str_app_assoc. done.
    + cbn [iter_den]. exists (a +:+ String w ""), x1, g. split_and!; [done| |done].
      apply den_one_space. rewrite count_spaces_app. simpl. rewrite Ha, Hw. done.
Qed.

(** The text a placeholder's pattern matches. *)
Lemma den_modifier (m : modifier) (i : nat) (x rest : string) (g g' : groups) :
  den (modifier_ast m) i x rest g g' ↔ captures m x ∧ g' = g.
Proof.
  destruct m as [| |count]; cbn [modifier_ast captures].
  - cbn [den]. rewrite <- any_no_newline. split.
    + intros (x1 & x2 & ? & -> & [H ->] & -> & ->). by rewrite str_app_nil_r.
    + intros [H ->]. exists x, "", g. by rewrite str_app_nil_r.
  - cbn [den]. rewrite <- any_no_newline. split.
    + intros (x1 & x2 & ? & -> & [H ->] & -> & ->). by rewrite str_app_nil_r.
    + intros [H ->]. exists x, "", g. by rewrite str_app_nil_r.
  - fold one_space. cbn [den]. split.
    + intros (x1 & x2 & ? & -> & [H1 ->]%iter_one_space_count
              & y & e & ? & -> & [Hy ->] & -> & ->).
      apply not_space_count in Hy. rewrite !count_spaces_app. simpl. split; [lia|done].
    + intros [Hx ->].
      destruct (count_iter_one_space _ i x rest g Hx) as (x1 & x2 & -> & Hit & Hx2).
      exists x1, x2, g. split_and!; [done..|].
      exists x2, "", g. rewrite str_app_nil_r. split_and!; [done|by apply not_space_count|done..].
Qed.

(** The text the compiled segments match: the literals, with a text each
    placeholder can capture in its place, up to the end of the line. *)
Lemma den_segments (l : list segment) (i : nat) (x rest : string) (g g' : groups) :
  den (segments_ast l) i x rest g g'
  ↔ ∃ xs, x = fill l xs ∧ Forall2 captures (modifiers l) xs
          ∧ at_end rest = true ∧ g' = bind_groups l xs g.
Proof.
  revert i x g. induction l as [|[c|index m] l IH]; intros i x g; cbn [segments_ast].
  - cbn [den]. split.
    + intros (? & ? & ? & -> & (-> & He & ->) & -> & ->). exists []. by repeat constructor.
    + intros (xs & -> & Hxs & He & ->). by exists "", "", g.
  - cbn [den]. setoid_rewrite IH. split.
    + intros (? & x2 & ? & -> & (c' & -> & <-%Ascii.eqb_eq & ->) & xs & -> & H).
      by exists xs.
    + intros (xs & -> & H). exists (String c ""), (fill l xs), g.
      split_and!; [done| |by exists xs]. exists c. simpl. by rewrite Ascii.eqb_refl.
  - cbn [den modifiers omap list_omap]. fold (modifiers l).
    setoid_rewrite IH. setoid_rewrite den_modifier. split.
    + intros (x1 & x2 & ? & -> & (? & [Hc ->] & ->) & xs & -> & Hxs & He & ->).
      exists (x1 :: xs). split_and!; [done|by constructor|done..].
    + intros (xs & -> & Hxs & He & ->).
      apply Forall2_cons_inv_l in Hxs as (x1 & xs' & Hc & Hxs & ->).
      exists x1, (fill l xs'), (<[group_name index := x1]> g).
      split_and!; [done|by exists g|by exists xs'].
Qed.

(** A match of a compiled template decomposes the line. *)
Lemma re_match_sound (t line : string) (m : ReMatch) :
  re_match (compiled t) line = Some m →
  ∃ xs rest,
    line = fill (segments t) xs +:+ rest
    ∧ at_end rest = true
    ∧ Forall2 captures (modifiers (segments t)) xs
    ∧ m = {| m_re := compiled t; m_string := line;
             m_end := String.length (fill (segments t) xs);
             m_groups := bind_groups (segments t) xs ∅ |}.
Proof.
  unfold re_match.
  destruct (exec _ accept 0 line ∅) as [[e g]|] eqn:H; [|done].
  cbn [mbind option_bind]. intros [= <-].
  change (p_ast (compiled t)) with (Seq Bol (segments_ast (segments t))) in H.
  cbn [exec Nat.eqb] in H.
  apply exec_sound in H as (x & rest & g' & -> & Hd & Hk).
  apply den_segments in Hd as (xs & -> & Hxs & He & ->).
  unfold accept in Hk. simplify_eq. by exists xs, rest.
Qed.

(** Every line that decomposes is matched. *)
Lemma re_match_complete (t : string) (xs : list string) (rest : string) :
  Forall2 captures (modifiers (segments t)) xs →
  at_end rest = true →
  is_Some (re_match (compiled t) (fill (segments t) xs +:+ rest)).
Proof.
  intros Hxs He. unfold re_match.
  change (p_ast (compiled t)) with (Seq Bol (segments_ast (segments t))).
  cbn [exec Nat.eqb].
  destruct (exec_complete (segments_ast (segments t)) accept 0
             (fill (segments t) xs) rest ∅ (bind_groups (segments t) xs ∅))
    as [[e g] Hex]; [|done|].
  - apply den_segments. by exists xs.
  - rewrite Hex. done.
Qed.

Lemma bind_groups_other (l : list segment) (xs : list string) (g : groups) (index : string) :
  index ∉ indices l → bind_groups l xs g !! group_name index = g !! group_name index.
Proof.
  revert xs g. induction l as [|[c|i m] l IH]; intros xs g Hi; cbn [bind_groups]; [done|..].
  - by apply IH.
  - cbn [indices omap list_omap] in Hi. fold (indices l) in Hi.
    apply not_elem_of_cons in Hi as [Hne Hi].
    destruct xs as [|x xs]; [done|]. rewrite (IH _ _ Hi).
    apply lookup_insert_ne. by intros ?%(inj group_name).
Qed.

(** The group of a placeholder holds the text that stands in its place. *)
Lemma bind_groups_lookup (l : list segment) (xs : list string) (g : groups)
    (index x : string) :
  NoDup (indices l) → (index, x) ∈ zip (indices l) xs →
  bind_groups l xs g !! group_name index = Some x.
Proof.
  revert xs g. induction l as [|[c|i m] l IH]; intros xs g Hnd Hin; cbn [bind_groups].
  - by apply elem_of_nil in Hin.
  - by apply IH.
  - cbn [indices omap list_omap] in Hnd, Hin. fold (indices l) in Hnd, Hin.
    apply NoDup_cons in Hnd as [Hni Hnd].
    destruct xs as [|x' xs]; [by apply elem_of_nil in Hin|].
    cbn [zip zip_with] in Hin. apply elem_of_cons in Hin as [[= -> ->]|Hin].
    + rewrite (bind_groups_other _ _ _ _ Hni). apply lookup_insert_eq.
    + by apply IH.
Qed.

(** ** Construction of a pattern set *)

Lemma mapM_Ok {A B} (f : A → result B) (l : list A) (ys : list B) :
  mapM f l = Ok ys ↔ Forall2 (λ x y, f x = Ok y) l ys.
Proof.
  revert ys. induction l as [|x l IH]; intros ys; simpl.
  - split.
    + intros [= <-]. constructor.
    + intros H. by apply Forall2_nil_inv_l in H as ->.
  - split.
    + destruct (f x) as [y|e] eqn:Hx; [|done]. simpl.
      destruct (mapM f l) as [ys'|e]; [|done]. simpl.
      intros [= <-]. constructor; [done|]. by apply IH.
    + intros (y' & ys'' & Hy & H & ->)%Forall2_cons_inv_l.
      apply IH in H. by rewrite Hy, H.
Qed.

Lemma mapM_Raise {A B} (f : A → result B) (pre : list A) (x : A) (post : list A) (e : exn) :
  Forall (λ p, ∃ y, f p = Ok y) pre → f x = Raise e →
  mapM f (pre ++ x :: post) = Raise e.
Proof.
  intros Hpre Hx. induction Hpre as [|p pre [y Hp] _ IH]; simpl.
  - by rewrite Hx.
  - by rewrite Hp, IH.
Qed.

Lemma mapM_Raise_inv {A B} (f : A → result B) (l : list A) (e : exn) :
  mapM f l = Raise e →
  ∃ pre x post, l = pre ++ x :: post ∧ Forall (λ p, ∃ y, f p = Ok y) pre ∧ f x = Raise e.
Proof.
  induction l as [|x l IH]; [done|]. simpl.
  destruct (f x) as [y|e'] eqn:Hx; simpl.
  - destruct (mapM f l) as [ys|e'] eqn:Hl; simpl; [done|]. intros [= ->].
    destruct (IH eq_refl) as (pre & x' & post & -> & Hpre & Hx').
    exists (x :: pre), x', post. split_and!; [done| |done]. constructor; [by exists y|done].
  - intros [= ->]. by exists [], x, l.
Qed.

Lemma map_pattern_to_re_Ok (t : string) (r : Pattern) :
  map_pattern_to_re (escape t) = Ok r ↔ compiles t ∧ r = compiled t.
Proof.
  rewrite map_pattern_to_re_spec. unfold compiles.
  destruct (first_duplicate (segments t) ∅) as [[index m]|] eqn:Hd.
  - split; [done|]. intros [[Hnd _] _].
    assert (first_duplicate (segments t) ∅ = None).
    { apply first_duplicate_None. split; [done|]. intros i _. apply not_elem_of_empty. }
    congruence.
  - apply first_duplicate_None in Hd as [Hnd _].
    destruct (first_rejected (segments t)).
    + split; [done|]. by intros [[_ ?] _].
    + split; [by intros [= <-]|by intros [_ ->]].
Qed.

Lemma mapM_compile (l : list string) (rs : list Pattern) :
  mapM map_pattern_to_re (map escape l) = Ok rs
  ↔ Forall compiles l ∧ rs = compiled <$> l.
Proof.
  rewrite mapM_Ok, Forall2_fmap_l. split.
  - induction 1 as [|x r l' rs' [Hx ->]%map_pattern_to_re_Ok _ [IH1 IH2]].
    + by split.
    + split; [by constructor|]. by rewrite IH2.
  - intros [Hc ->]. apply Forall2_fmap_r, Forall_Forall2_diag.
    eapply Forall_impl; [done|]. intros t Ht. by apply map_pattern_to_re_Ok.
Qed.

Lemma init_Ok (ts : list string) (g : Grepper) :
  __init__ ts = Ok g
  ↔ ts ≠ [] ∧ Forall compiles ts
    ∧ g = {| patterns := ts; regexes := compiled <$> ts |}.
Proof.
  unfold __init__. destruct ts as [|t ts]; [by split; [|intros [? _]]|].
  destruct (mapM map_pattern_to_re (map escape (t :: ts))) as [rs|e] eqn:Hm;
    cbn [mbind result_bind].
  - apply mapM_compile in Hm as [Hc ->].
    split; [by intros [= <-]|by intros (_ & _ & ->)].
  - split; [done|]. intros (_ & Hc & _). exfalso.
    assert (mapM map_pattern_to_re (map escape (t :: ts)) = Ok (compiled <$> (t :: ts)))
      by (by apply mapM_compile).
    congruence.
Qed.

(** ** Matching a line against a pattern set *)

Lemma match_line_from_spec (ts pre post : list string) (line : string) :
  ts = pre ++ post →
  match_line_from {| patterns := ts; regexes := compiled <$> ts |}
    (length pre) (compiled <$> post) line
  = Ok (first_match post line).
Proof.
  revert pre. induction post as [|t post IH]; intros pre Hts; [done|].
  cbn [fmap list_fmap match_line_from first_match patterns].
  destruct (re_match (compiled t) line) as [m|].
  - rewrite Hts, list_lookup_middle by done. done.
  - specialize (IH (pre ++ [t])). rewrite length_app, Nat.add_1_r in IH.
    apply IH. by rewrite <- (assoc_L (++)).
Qed.

Lemma match_line_spec (ts : list string) (g : Grepper) (line : string) :
  __init__ ts = Ok g → match_line g line = Ok (first_match ts line).
Proof.
  intros (_ & _ & ->)%init_Ok. unfold match_line. cbn [regexes].
  by apply (match_line_from_spec ts []).
Qed.

Lemma first_match_Some (ts : list string) (line : string) (m : Match) :
  first_match ts line = Some m →
  ∃ i t, ts !! i = Some t ∧ pattern m = t
    ∧ re_match (compiled t) line = Some (wrapped m)
    ∧ ∀ j t', j < i → ts !! j = Some t' → re_match (compiled t') line = None.
Proof.
  induction ts as [|t ts IH]; [done|]. cbn [first_match].
  destruct (re_match (compiled t) line) as [m0|] eqn:Hm.
  - intros [= <-]. exists 0, t. split_and!; [done..|]. lia.
  - intros (i & t' & Hi & Hp & Hr & Hbefore)%IH. exists (S i), t'.
    split_and!; [done..|]. intros [|j] t'' Hj Hl.
    + simpl in Hl. by simplify_eq.
    + apply (Hbefore j); [lia|done].
Qed.

Lemma first_match_None (ts : list string) (line : string) :
  first_match ts line = None ↔ ∀ t, t ∈ ts → re_match (compiled t) line = None.
Proof.
  induction ts as [|t ts IH]; cbn [first_match].
  - split; [|done]. intros _ t Ht. by apply elem_of_nil in Ht.
  - destruct (re_match (compiled t) line) as [m0|] eqn:Hm.
    + split; [done|]. intros H. rewrite H in Hm; [done|by left].
    + rewrite IH. split.
      * intros H t' [->|Ht']%elem_of_cons; [done|by apply H].
      * intros H t' Ht'. apply H. by right.
Qed.

(** ** Which text a placeholder captures *)

Lemma exec_segments_None (l : list segment) (k : cont) (i : nat) (q : string) (g : groups) :
  (∀ j s g', is_Some (k j s g')) →
  exec (segments_ast l) k i q g = None → ¬ rest_matches l q.
Proof.
  intros Hk Hex (xs & rest & -> & Hxs & He).
  destruct (exec_complete (segments_ast l) k i (fill l xs) rest g (bind_groups l xs g))
    as [r Hr]; [|done|congruence].
  apply den_segments. by exists xs.
Qed.

Lemma exec_segments_Some (l : list segment) (i : nat) (q : string) (g : groups)
    (res : nat * groups) :
  exec (segments_ast l) accept i q g = Some res →
  ∃ xs rest, q = fill l xs +:+ rest ∧ Forall2 captures (modifiers l) xs
    ∧ at_end rest = true
    ∧ res = (i + String.length (fill l xs), bind_groups l xs g).
Proof.
  intros (x & rest & g' & -> & Hd & Hk)%exec_sound.
  apply den_segments in Hd as (xs & -> & Hxs & He & ->).
  unfold accept in Hk. simplify_eq. by exists xs, rest.
Qed.

Lemma accept_total (j : nat) (s : string) (g : groups) : is_Some (accept j s g).
Proof. by eexists. Qed.

(** A placeholder followed by the segments [l2]: the text it captures and,
    without modifier or with [G], why no shorter or longer text was taken. *)
Lemma exec_token (l2 : list segment) (index : string) (md : modifier)
    (i : nat) (s : string) (g : groups) (res : nat * groups) :
  exec (Grp (group_name index) (modifier_ast md)) (exec (segments_ast l2) accept) i s g
  = Some res →
  ∃ x q xs2 rest,
    s = x +:+ q
    ∧ captures md x
    ∧ q = fill l2 xs2 +:+ rest ∧ Forall2 captures (modifiers l2) xs2
    ∧ at_end rest = true
    ∧ res.2 = bind_groups l2 xs2 (<[group_name index := x]> g)
    ∧ (md = Lazy → ∀ x' q', s = x' +:+ q' →
         String.length x' < String.length x → ¬ rest_matches l2 q')
    ∧ (md = Greedy → ∀ x' q', s = x' +:+ q' → has_newline x' = false →
         String.length x < String.length x' → ¬ rest_matches l2 q').
Proof.
  intros H. destruct md as [| |count].
  - cbn [modifier_ast exec] in H.
    apply star_min_sound in H as (x & q & -> & Hx & Hk & Hmin).
    cbn [exec] in Hk. replace (i + String.length x - i) with (String.length x) in Hk by lia.
    rewrite take_str_app in Hk.
    apply exec_segments_Some in Hk as (xs2 & rest & -> & Hxs2 & He & ->).
    exists x, (fill l2 xs2 +:+ rest), xs2, rest.
    split_and!; [done|by apply any_no_newline|done..| |done].
    intros _ x' q' Heq Hlt. specialize (Hmin x' q' Heq Hlt). cbn [exec] in Hmin.
    eapply exec_segments_None; [apply accept_total|done].
  - cbn [modifier_ast exec] in H.
    apply star_max_sound in H as (x & q & -> & Hx & Hk & Hmax).
    cbn [exec] in Hk. replace (i + String.length x - i) with (String.length x) in Hk by lia.
    rewrite take_str_app in Hk.
    apply exec_segments_Some in Hk as (xs2 & rest & -> & Hxs2 & He & ->).
    exists x, (fill l2 xs2 +:+ rest), xs2, rest.
    split_and!; [done|by apply any_no_newline|done..|].
    intros _ x' q' Heq Hnl Hlt.
    apply any_no_newline in Hnl. specialize (Hmax x' q' Heq Hnl Hlt). cbn [exec] in Hmax.
    eapply exec_segments_None; [apply accept_total|done].
  - apply exec_sound in H as (x & q & g' & -> & Hd & Hk).
    cbn [den] in Hd. destruct Hd as (gm & [Hx ->]%den_modifier & ->).
    apply exec_segments_Some in Hk as (xs2 & rest & -> & Hxs2 & He & ->).
    by exists x, (fill l2 xs2 +:+ rest), xs2, rest.
Qed.

(** Where a placeholder stands in a template, the matcher settles the text of
    the segments before it, then the text of the placeholder: with no
    modifier, the shortest after which the rest of the template matches the
    rest of the line; with [G], the longest. *)
Lemma exec_placeholder (l1 l2 : list segment) (index : string) (md : modifier)
    (i : nat) (s : string) (g : groups) (res : nat * groups) :
  exec (segments_ast (l1 ++ Token index md :: l2)) accept i s g = Some res →
  ∃ xs1 x q xs2 rest,
    s = fill l1 xs1 +:+ x +:+ q
    ∧ Forall2 captures (modifiers l1) xs1
    ∧ captures md x
    ∧ q = fill l2 xs2 +:+ rest ∧ Forall2 captures (modifiers l2) xs2
    ∧ at_end rest = true
    ∧ res.2 = bind_groups l2 xs2 (<[group_name index := x]> (bind_groups l1 xs1 g))
    ∧ (md = Lazy → ∀ x' q', x +:+ q = x' +:+ q' →
         String.length x' < String.length x → ¬ rest_matches l2 q')
    ∧ (md = Greedy → ∀ x' q', x +:+ q = x' +:+ q' → has_newline x' = false →
         String.length x < String.length x' → ¬ rest_matches l2 q').
Proof.
  revert i s g. induction l1 as [|[c|index1 m1] l1 IH]; intros i s g H.
  - cbn [app segments_ast exec] in H.
    apply exec_token in H as (x & q & xs2 & rest & -> & Hx & -> & Hxs2 & He & Hres & Hmin & Hmax).
    exists [], x, (fill l2 xs2 +:+ rest), xs2, rest.
    cbn [fill bind_groups modifiers omap list_omap]. by split_and!.
  - cbn [app segments_ast exec] in H. destruct s as [|c' s]; [done|].
    cbn [cset_match] in H. destruct (Ascii.eqb_spec c c') as [<-|]; [|done].
    apply IH in H as (xs1 & x & q & xs2 & rest & -> & Hxs1 & Hx & -> & Hxs2 & He & Hres & Hm).
    by exists xs1, x, (fill l2 xs2 +:+ rest), xs2, rest.
  - cbn [app segments_ast] in H. change (exec (Seq ?a ?b) ?k) with (exec a (exec b k)) in H.
    apply exec_sound in H as (x1 & s' & g' & -> & Hd & Hk).
    cbn [den] in Hd. destruct Hd as (gm & [Hx1 ->]%den_modifier & ->).
    apply IH in Hk as (xs1 & x & q & xs2 & rest & -> & Hxs1 & Hx & -> & Hxs2 & He & Hres & Hm).
    exists (x1 :: xs1), x, (fill l2 xs2 +:+ rest), xs2, rest.
    cbn [fill bind_groups modifiers omap list_omap]. fold (modifiers l1).
    rewrite str_app_assoc. destruct Hm as [Hmin Hmax].
    split_and!; try done. by constructor.
Qed.

(** ** Facts about a successful [match_line] *)

Lemma matched_facts (ts : list string) (g : Grepper) (l : string) (m : Match) :
  __init__ ts = Ok g → match_line g l = Ok (Some m) →
  ∃ i, ts !! i = Some (pattern m)
    ∧ regexes g !! i = Some (compiled (pattern m))
    ∧ compiles (pattern m)
    ∧ re_match (compiled (pattern m)) l = Some (wrapped m)
    ∧ ∀ j r, j < i → regexes g !! j = Some r → re_match r l = None.
Proof.
  intros Hg Hm. rewrite (match_line_spec _ _ _ Hg) in Hm. injection Hm as Hm.
  apply first_match_Some in Hm as (i & t & Hi & <- & Hr & Hbefore).
  apply init_Ok in Hg as (_ & Hc & ->). exists i. split_and!; [done| | |done|].
  - cbn [regexes]. by rewrite list_lookup_fmap, Hi.
  - rewrite Forall_forall in Hc. apply Hc. by eapply list_elem_of_lookup_2.
  - cbn [regexes]. intros j r Hj Hr'. rewrite list_lookup_fmap in Hr'.
    destruct (ts !! j) as [t'|] eqn:Ht'; [|done]. injection Hr' as <-.
    by apply (Hbefore j).
Qed.

Lemma group_compiled (t l : string) (w : ReMatch) (name : string) :
  re_match (compiled t) l = Some w →
  group w name
  = if decide (name ∈ group_name <$> indices (segments t))
    then Ok (m_groups w !! name) else Raise (IndexError "no such group").
Proof.
  intros (xs & rest & _ & _ & _ & ->)%re_match_sound. unfold group, groupindex.
  cbn [m_re m_groups compiled p_ast template_ast group_names app].
  by rewrite segments_ast_group_names.
Qed.

(** The text captured for the placeholder that follows [l1] in the template
    of a match. *)
Lemma matched_placeholder (ts : list string) (g : Grepper) (l : string) (m : Match)
    (l1 l2 : list segment) (index : string) (md : modifier) :
  __init__ ts = Ok g → match_line g l = Ok (Some m) →
  segments (pattern m) = l1 ++ Token index md :: l2 →
  ∃ xs1 x q,
    l = fill l1 xs1 +:+ x +:+ q
    ∧ Forall2 captures (modifiers l1) xs1
    ∧ captures md x
    ∧ rest_matches l2 q
    ∧ group (wrapped m) (group_name index) = Ok (Some x)
    ∧ (md = Lazy → ∀ x' q', x +:+ q = x' +:+ q' →
         String.length x' < String.length x → ¬ rest_matches l2 q')
    ∧ (md = Greedy → ∀ x' q', x +:+ q = x' +:+ q' → has_newline x' = false →
         String.length x < String.length x' → ¬ rest_matches l2 q').
Proof.
  intros Hg Hm Hseg.
  destruct (matched_facts _ _ _ _ Hg Hm) as (i & _ & _ & [Hnd _] & Hr & _).
  rewrite (group_compiled _ _ _ _ Hr).
  assert (Hin : group_name index ∈ group_name <$> indices (segments (pattern m))).
  { apply list_elem_of_fmap_2. rewrite Hseg. unfold indices.
    rewrite omap_app. apply elem_of_app. right. by left. }
  destruct (decide _) as [_|]; [|done].
  unfold re_match in Hr.
  destruct (exec _ accept 0 l ∅) as [[e gr]|] eqn:Hex; [|done].
  cbn [mbind option_bind] in Hr. injection Hr as <-. cbn [m_groups].
  change (p_ast (compiled (pattern m)))
    with (Seq Bol (segments_ast (segments (pattern m)))) in Hex.
  cbn [exec Nat.eqb] in Hex. rewrite Hseg in Hex.
  apply exec_placeholder in Hex
    as (xs1 & x & q & xs2 & rest & -> & Hxs1 & Hx & -> & Hxs2 & He & Hres & Hmin & Hmax).
  cbn [snd] in Hres. subst gr.
  exists xs1, x, (fill l2 xs2 +:+ rest). split_and!; [done..|by exists xs2, rest| |done|done].
  f_equal. rewrite bind_groups_other.
  - apply lookup_insert_eq.
  - rewrite Hseg in Hnd. unfold indices in Hnd. rewrite omap_app in Hnd.
    apply NoDup_app in Hnd as (_ & _ & Hnd). cbn [omap list_omap] in Hnd.
    by apply NoDup_cons in Hnd as [? _].
Qed.

(** ** Further facts used by the properties *)

Lemma at_end_cases (rest : string) :
  at_end rest = true ↔ rest = "" ∨ rest = String newline "".
Proof.
  destruct rest as [|c [|d rest]]; simpl.
  - split; [by left|done].
  - rewrite Ascii.eqb_eq. split; [intros ->; by right|by intros [|[= ->]]].
  - split; [done|by intros [|]].
Qed.

Lemma nonspace_run_count (s : string) : nonspace_run s ↔ count_spaces s = 0.
Proof. apply not_space_count. Qed.

(** The shape says that the text has exactly [n] whitespace characters. *)
Lemma spaces_shape_count (n : nat) (x : string) :
  spaces_shape n x ↔ count_spaces x = n.
Proof.
  split.
  - intros (head & parts & trailing & -> & <- & Hh%nonspace_run_count & Hp
            & Ht%nonspace_run_count).
    rewrite !count_spaces_app, Hh, Ht, Nat.add_0_r. simpl.
    induction Hp as [|[w r] parts [Hw Hr%nonspace_run_count] _ IH]; [done|].
    cbn [fmap list_fmap join fst snd length count_spaces] in *.
    rewrite count_spaces_app, IH. cbn [count_spaces]. by rewrite Hw, Hr.
  - revert x. induction n as [|n IH]; intros x Hx.
    + exists x, [], "". rewrite str_app_nil_r.
      split_and!; [done|done|by apply nonspace_run_count|constructor|done].
    + apply count_spaces_succ in Hx as (a & w & x' & -> & Ha & Hw & Hx').
      destruct (IH _ Hx') as (head & parts & trailing & -> & <- & Hh & Hp & Ht).
      exists a, ((w, head) :: parts), trailing.
      cbn [fmap list_fmap join fst snd length].
      split_and!; [|done|by apply nonspace_run_count|by constructor|done].
      by rewrite !str_app_assoc.
Qed.

Lemma digits_span (d : string) (c : ascii) (r : string) :
  digits d → is_digit c = false → span_digits (d +:+ String c r) = (d, String c r).
Proof. intros [_ Hd] Hc. by apply span_digits_app. Qed.

(** A well-formed placeholder is read back as itself. *)
Lemma match_placeholder_placeholder (index : string) (m : modifier) (rest : string) :
  digits index → wf_modifier m →
  match_placeholder "%{" "}" (placeholder index m +:+ rest)
  = Some (index, modifier_group m, rest).
Proof.
  intros Hi Hm. unfold match_placeholder, placeholder.
  rewrite !str_app_assoc. rewrite strip_prefix_app. cbn [mbind option_bind].
  pose proof Hi as [Hne _]. apply String.eqb_neq in Hne.
  destruct m as [| |count]; cbn [modifier_text modifier_group String.append].
  - rewrite (digits_span _ _ _ Hi) by done. rewrite Hne. done.
  - rewrite (digits_span _ _ _ Hi) by done. rewrite Hne. done.
  - rewrite (digits_span _ _ _ Hi) by done. rewrite Hne. cbn [strip_prefix].
    cbn [Ascii.eqb Bool.eqb]. cbn [mbind option_bind].
    pose proof Hm as [Hnc _]. apply String.eqb_neq in Hnc.
    rewrite (digits_span _ _ _ Hm) by done. rewrite Hnc. done.
Qed.

Lemma modifier_of_group (m : modifier) : modifier_of (modifier_group m) = m.
Proof. by destruct m. Qed.

Lemma segments_placeholder (index : string) (m : modifier) :
  digits index → wf_modifier m → segments (placeholder index m) = [Token index m].
Proof.
  intros Hi Hm. pose proof (match_placeholder_placeholder index m "" Hi Hm) as H.
  rewrite str_app_nil_r in H. rewrite (segments_cons_token _ _ _ _ H).
  by rewrite modifier_of_group.
Qed.

Lemma token_group (m : Match) (i : Z) :
  token m i
  = if too_long (decimal (Z.abs i)) then Raise str_limit_error
    else group (wrapped m) (group_name (decimal i)).
Proof. unfold token, str. by destruct (too_long _). Qed.

Lemma length_indices_modifiers (l : list segment) :
  length (indices l) = length (modifiers l).
Proof. induction l as [|[c|index m] l IH]; simpl; [done|done|by rewrite IH]. Qed.

Lemma first_duplicate_Some (l : list segment) (seen : gset string)
    (index : string) (m : modifier) :
  first_duplicate l seen = Some (index, m) →
  ∃ l1 l2, l = l1 ++ Token index m :: l2
    ∧ (index ∈ seen ∨ index ∈ indices l1)
    ∧ first_duplicate l1 seen = None.
Proof.
  revert seen. induction l as [|[c|index' m'] l IH]; intros seen H; [done|..].
  - cbn [first_duplicate] in H. destruct (IH _ H) as (l1 & l2 & -> & Hin & Hnone).
    by exists (Literal c :: l1), l2.
  - cbn [first_duplicate] in H. destruct (decide (index' ∈ seen)) as [Hin|Hnotin].
    + injection H as -> ->. exists [], l. split_and!; [done|by left|done].
    + destruct (IH _ H) as (l1 & l2 & -> & Hin & Hnone).
      exists (Token index' m' :: l1), l2. split_and!; [done| |].
      * cbn [indices omap list_omap]. fold (indices l1).
        destruct Hin as [[->%elem_of_singleton|Hin]%elem_of_union|Hin].
        -- right. by left.
        -- by left.
        -- right. by right.
      * cbn [first_duplicate]. by destruct (decide (index' ∈ seen)).
Qed.

(** The messages of the limit on the conversions between [int] and [str]. *)
Example limit_messages :
  int_limit_error 4301
  = ValueError ("Exceeds the limit (4300 digits) for integer string conversion: "
                +:+ "value has 4301 digits; "
                +:+ "use sys.set_int_max_str_digits() to increase the limit")
  ∧ str_limit_error
    = ValueError ("Exceeds the limit (4300 digits) for integer string conversion; "
                  +:+ "use sys.set_int_max_str_digits() to increase the limit").
Proof. split; reflexivity. Qed.

(** A count of 4301 digits is refused by [int], whatever its value; a count
    of 4300 digits is converted, and the engine rejects its value. *)
Example long_counts :
  __init__ ["%{0S" +:+ Nat.iter 4301 (String "0") "" +:+ "}"]
    = Raise (int_limit_error 4301)
  ∧ __init__ ["%{0S" +:+ Nat.iter 4300 (String "1") "" +:+ "}"] = Raise overflow
  ∧ ∃ g, __init__ ["%{0S" +:+ Nat.iter 4299 (String "0") "" +:+ "1}"] = Ok g.
Proof. split_and!; [vm_compute; reflexivity..|eexists; vm_compute; reflexivity]. Qed.

Lemma first_rejected_Some (l : list segment) (e : exn) :
  first_rejected l = Some e →
  e = overflow ∨ ∃ n, 4300 < n ∧ e = int_limit_error n.
Proof.
  induction l as [|sg l IH]; [done|]. cbn [first_rejected].
  destruct (rejected sg) as [e'|] eqn:Hr; [|done]. intros [= <-].
  destruct sg as [c|index [| |count]]; try done. cbn [rejected] in Hr.
  unfold count_error in Hr. destruct (too_long count) eqn:Hlen.
  - injection Hr as <-. right. exists (String.length count). split; [|done].
    unfold too_long, int_max_str_digits in Hlen. apply N.ltb_lt in Hlen. lia.
  - destruct (MAXREPEAT <=? int count)%N; [|done]. injection Hr as <-. by left.
Qed.


Lemma count_spaces_iter (n : nat) : count_spaces (Nat.iter n (String " ") "") = n.
Proof.
  induction n as [|n IH]; [done|].
  rewrite Nat.iter_succ. cbn [count_spaces]. by rewrite IH.
Qed.

(** * The properties *)

(** C1, as stated, fails in three ways.  Two placeholders with the same
    index written with different digits, [%{0}] and [%{00}], are no error.  A
    template before the one with the repeated index can already fail for a
    count the engine rejects.  And the message does not show a template with
    a newline as it was given: a backslash stays before the newline. *)
Lemma same_index_not_always_reported :
  (int "0" = int "00" ∧ ∃ g, __init__ ["%{0} %{00}"] = Ok g)
  ∧ __init__ ["%{0S4294967295}"; "%{0} %{0}"] = Raise overflow
  ∧ (__init__ ["%{0}" +:+ String newline "%{0}"]
       = Raise (ValueError (duplicate_message "0" Lazy
                              ("%{0}\" +:+ String newline "%{0}")))
     ∧ "%{0}\" +:+ String newline "%{0}" ≠ "%{0}" +:+ String newline "%{0}").
Proof.
  split_and!; [reflexivity|by eexists|reflexivity|reflexivity|done].
Qed.

(** C1, amended: if a template contains two placeholders whose indices are
    written with the same digits, whatever their modifiers, and every
    template before it compiles, then construction fails, and nothing is
    built, with the [ValueError] for a repeated index; its message names the
    first placeholder that repeats the index of an earlier one and shows, as
    [repr] prints it, the template that [_unescape] makes of the escaped
    template: that is the template as it was given when it has no newline. *)
Theorem duplicate_index_error (pre : list string) (t : string) (post : list string) :
  Forall compiles pre →
  ¬ NoDup (indices (segments t)) →
  ∃ l1 index m l2,
    segments t = l1 ++ Token index m :: l2
    ∧ NoDup (indices l1) ∧ index ∈ indices l1
    ∧ __init__ (pre ++ t :: post)
      = Raise (ValueError ("Duplicate token index " +:+ placeholder index m
                           +:+ " in " +:+ repr (_unescape (escape t))))
    ∧ (has_newline t = false → _unescape (escape t) = t).
Proof.
  intros Hpre Hdup.
  destruct (first_duplicate (segments t) ∅) as [[index m]|] eqn:Hd.
  - destruct (first_duplicate_Some _ _ _ _ Hd) as (l1 & l2 & Hseg & Hin & Hnone).
    apply first_duplicate_None in Hnone as [Hnd _].
    destruct Hin as [Hin|Hin]; [by apply elem_of_empty in Hin|].
    exists l1, index, m, l2. split_and!; [done..| |apply unescape_escape].
    assert (Hne : pre ++ t :: post ≠ []) by (by destruct pre).
    unfold __init__. destruct (pre ++ t :: post) as [|t0 ts0] eqn:Hts; [done|].
    rewrite <- Hts, map_app. cbn [map].
    rewrite (mapM_Raise _ _ _ _
               (ValueError (duplicate_message index m (_unescape (escape t))))).
    + done.
    + apply Forall_fmap. eapply Forall_impl; [done|]. intros p Hp.
      exists (compiled p). by apply map_pattern_to_re_Ok.
    + by rewrite map_pattern_to_re_spec, Hd.
  - exfalso. apply Hdup. by apply first_duplicate_None in Hd as [? _].
Qed.

Lemma duplicate_index_error_witness :
  ∃ l1 index m l2,
    segments "foo %{0} is a %{0}" = l1 ++ Token index m :: l2
    ∧ NoDup (indices l1) ∧ index ∈ indices l1
    ∧ __init__ ([] ++ "foo %{0} is a %{0}" :: [])
      = Raise (ValueError ("Duplicate token index " +:+ placeholder index m
                           +:+ " in " +:+ repr (_unescape (escape "foo %{0} is a %{0}"))))
    ∧ (has_newline "foo %{0} is a %{0}" = false
       → _unescape (escape "foo %{0} is a %{0}") = "foo %{0} is a %{0}").
Proof.
  apply (duplicate_index_error [] "foo %{0} is a %{0}" []).
  - constructor.
  - change (indices (segments "foo %{0} is a %{0}")) with ["0"; "0"].
    intros [Hn _]%NoDup_cons. apply Hn. by left.
Defined.

(** The error of the specification's example, also with modifiers. *)
Example duplicate_index_example :
  __init__ ["foo %{0} is a %{0}"]
    = Raise (ValueError "Duplicate token index %{0} in 'foo %{0} is a %{0}'")
  ∧ __init__ ["foo"; "%{1G} is a %{1S2}"]
    = Raise (ValueError "Duplicate token index %{1S2} in '%{1G} is a %{1S2}'")
  ∧ __init__ ["it's %{7} or %{7}"]
    = Raise (ValueError (String.append "Duplicate token index %{7} in "
                           (String double_quote
                              ("it's %{7} or %{7}" +:+ String double_quote "")))).
Proof. split_and!; reflexivity. Qed.

(** C2, as stated, fails: the pattern of the template [foo] matches the line
    [foo] followed by a newline, and consumes only [foo]. *)
Lemma match_before_final_newline :
  ∃ g m, __init__ ["foo"] = Ok g
    ∧ match_line g ("foo" +:+ String newline "") = Ok (Some m)
    ∧ group0 (wrapped m) = "foo"
    ∧ group0 (wrapped m) ≠ line m.
Proof. eexists _, _. split_and!; [reflexivity..|]. by vm_compute. Qed.

(** C2, amended: a match succeeds only if the pattern consumes the entire
    line, or all of it but one final newline character; the template
    [foo %{0} is a %{1}] matches [foo blah is a bar] and
    [foo blah is a very big boat], and does not match [foo blah is bar],
    [foo blah] or [foo blah is]. *)
Theorem match_is_anchored :
  (∀ ts g l m,
     __init__ ts = Ok g → match_line g l = Ok (Some m) →
     group0 (wrapped m) = l ∨ l = group0 (wrapped m) +:+ String newline "")
  ∧ matches "foo %{0} is a %{1}" "foo blah is a bar"
  ∧ matches "foo %{0} is a %{1}" "foo blah is a very big boat"
  ∧ no_match "foo %{0} is a %{1}" "foo blah is bar"
  ∧ no_match "foo %{0} is a %{1}" "foo blah"
  ∧ no_match "foo %{0} is a %{1}" "foo blah is".
Proof.
  split_and!.
  - intros ts g l m Hg Hm.
    destruct (matched_facts _ _ _ _ Hg Hm) as (_ & _ & _ & _ & Hr & _).
    apply re_match_sound in Hr as (xs & rest & -> & He & _ & ->).
    unfold group0. cbn [m_end m_string]. rewrite take_str_app.
    apply at_end_cases in He as [->| ->]; [left; by rewrite str_app_nil_r|by right].
  - eexists _, _. split; reflexivity.
  - eexists _, _. split; reflexivity.
  - eexists. split; reflexivity.
  - eexists. split; reflexivity.
  - eexists. split; reflexivity.
Qed.

Lemma match_is_anchored_witness :
  ∃ g m, __init__ ["foo %{0} is a %{1}"] = Ok g
    ∧ match_line g "foo blah is a bar" = Ok (Some m)
    ∧ (group0 (wrapped m) = "foo blah is a bar"
       ∨ "foo blah is a bar" = group0 (wrapped m) +:+ String newline "").
Proof.
  eexists _, _. split_and!; [reflexivity|reflexivity|].
  eapply (proj1 match_is_anchored ["foo %{0} is a %{1}"]); reflexivity.
Defined.

(** C3: the template is escaped as a whole and the placeholders are then
    found in the escaped text, exactly where the template has them: the
    substituted text is the escaped literals and the groups of the
    placeholders, in order.  So the pattern of a match is the one compiled
    from the segments of its template, and the matched line is made of the
    template's literal characters, each as it is written (a [.] in the
    template stands for a [.] in the line), with a captured text in the place
    of each placeholder. *)
Theorem literals_match_themselves (ts : list string) (g : Grepper) (l : string) (m : Match) :
  __init__ ts = Ok g → match_line g l = Ok (Some m) →
  re_sub _map_token_to_re (escape (pattern m)) ∅
    = Ok (segments_text (segments (pattern m)))
  ∧ m_re (wrapped m) = compiled (pattern m)
  ∧ ∃ xs rest,
      l = fill (segments (pattern m)) xs +:+ rest
      ∧ Forall2 captures (modifiers (segments (pattern m))) xs
      ∧ at_end rest = true.
Proof.
  intros Hg Hm. destruct (matched_facts _ _ _ _ Hg Hm) as (_ & _ & _ & [Hnd _] & Hr & _).
  apply re_match_sound in Hr as (xs & rest & Hl & He & Hxs & Hw). split_and!.
  - unfold re_sub. rewrite (sub_from_escape (String.length (pattern m))) by done.
    rewrite render_spec.
    assert (first_duplicate (segments (pattern m)) ∅ = None) as ->; [|done].
    apply first_duplicate_None. split; [done|]. intros i _. apply not_elem_of_empty.
  - by rewrite Hw.
  - by exists xs, rest.
Qed.

Lemma literals_match_themselves_witness :
  ∃ g m, __init__ ["a.c %{0}"] = Ok g
    ∧ match_line g "a.c d" = Ok (Some m)
    ∧ pattern m = "a.c %{0}"
    ∧ re_sub _map_token_to_re (escape (pattern m)) ∅
        = Ok (segments_text (segments (pattern m)))
    ∧ m_re (wrapped m) = compiled (pattern m)
    ∧ ∃ xs rest, "a.c d" = fill (segments (pattern m)) xs +:+ rest
                 ∧ Forall2 captures (modifiers (segments (pattern m))) xs
                 ∧ at_end rest = true.
Proof.
  eexists _, _. do 3 (split; [reflexivity|]).
  eapply (literals_match_themselves ["a.c %{0}"]); reflexivity.
Defined.

(** A [.] in a template matches a [.] and no other character; the pattern
    text of a template is the one the repository's tests expect. *)
Example literal_dot_example :
  run ["a.c"] "a.c" (λ m, Ok (pattern m)) = Ok (Some "a.c")
  ∧ run ["a.c"] "abc" (λ m, Ok (pattern m)) = Ok None
  ∧ run ["(a*)+[b]|c"] "(a*)+[b]|c" (λ m, Ok (pattern m)) = Ok (Some "(a*)+[b]|c")
  ∧ run ["(a*)+[b]|c"] "aab" (λ m, Ok (pattern m)) = Ok None
  ∧ run ["the %{0S1} %{1} ran away"] "the big brown fox ran away"
      (λ m, Ok (p_pattern (m_re (wrapped m))))
    = Ok (Some "^the\ (?P<token_0>(?:\S*\s\S*){1}\S*)\ (?P<token_1>.*?)\ ran\ away$").
Proof. split_and!; reflexivity. Qed.

(** C4, as stated, fails for a count that the engine does not take: there
    are texts of the shape for the count 4294967295, and no pattern captures
    them, since building a pattern with that count raises [OverflowError]. *)
Lemma spaces_count_not_taken :
  __init__ ["%{0S4294967295}"] = Raise overflow
  ∧ (∀ x, ¬ matches "%{0S4294967295}" x)
  ∧ ∃ x, spaces_shape (N.to_nat (int "4294967295")) x.
Proof.
  assert (__init__ ["%{0S4294967295}"] = Raise overflow) as H by reflexivity.
  split_and!; [exact H| |].
  - intros x (g & m & Hg & _). rewrite H in Hg. discriminate Hg.
  - exists (Nat.iter (N.to_nat (int "4294967295")) (String " ") "").
    apply spaces_shape_count. exact (count_spaces_iter _).
Qed.

(** C4, amended: for a count [n] that is written with at most 4300 decimal
    digits and is less than 4294967295, in a template that can be built, the
    text captured by a placeholder with modifier [S<n>] has the shape: a run
    of non-space characters, exactly [n] times a whitespace character and a
    run of non-space characters, a trailing run of non-space characters;
    every text of that shape is captured by such a placeholder, and a
    template filled with texts its placeholders can capture, those of that
    shape for a placeholder [S<n>], is matched; so the captured texts are
    those with exactly [n] whitespace characters.  With a count of more
    digits, or of 4294967295 or more, no pattern is built.  (The digits of a
    count are the ASCII digits, as all text here has its characters in
    U+0000..U+00FF.)
    The template [foo %{0} is a %{1S0}] matches [foo blah is a bar] and not
    [foo blah is a very big boat]. *)
Theorem spaces_limited_capture :
  (∀ ts g l m l1 index count l2,
     __init__ ts = Ok g → match_line g l = Ok (Some m) →
     segments (pattern m) = l1 ++ Token index (SpacesLimited count) :: l2 →
     ∃ x, group (wrapped m) (group_name index) = Ok (Some x)
          ∧ spaces_shape (N.to_nat (int count)) x)
  ∧ (∀ index count x,
       digits index → digits count →
       too_long count = false → (int count < MAXREPEAT)%N →
       spaces_shape (N.to_nat (int count)) x →
       ∃ g m, __init__ [placeholder index (SpacesLimited count)] = Ok g
              ∧ match_line g x = Ok (Some m)
              ∧ group (wrapped m) (group_name index) = Ok (Some x))
  ∧ (∀ index count,
       digits index → digits count →
       (too_long count = true
        → __init__ [placeholder index (SpacesLimited count)]
          = Raise (int_limit_error (String.length count)))
       ∧ (too_long count = false → (MAXREPEAT ≤ int count)%N
          → __init__ [placeholder index (SpacesLimited count)] = Raise overflow))
  ∧ (∀ t xs,
       compiles t → Forall2 captures (modifiers (segments t)) xs →
       matches t (fill (segments t) xs))
  ∧ (∀ count x, captures (SpacesLimited count) x ↔ spaces_shape (N.to_nat (int count)) x)
  ∧ (∀ n x, spaces_shape n x ↔ count_spaces x = n)
  ∧ matches "foo %{0} is a %{1S0}" "foo blah is a bar"
  ∧ no_match "foo %{0} is a %{1S0}" "foo blah is a very big boat"
  ∧ run ["the %{0S1} %{1} ran away"] "the big brown fox ran away"
      (λ m, a ← token m 0; b ← token m 1; Ok (a, b))
    = Ok (Some (Some "big brown", Some "fox")).
Proof.
  split_and!.
  - intros ts g l m l1 index count l2 Hg Hm Hseg.
    destruct (matched_placeholder _ _ _ _ _ _ _ _ Hg Hm Hseg)
      as (xs1 & x & q & _ & _ & Hx & _ & Hgroup & _).
    exists x. split; [done|]. by apply spaces_shape_count.
  - intros index count x Hi Hc Hlen Hsmall Hx. apply spaces_shape_count in Hx.
    set (t := placeholder index (SpacesLimited count)).
    assert (Hseg : segments t = [Token index (SpacesLimited count)])
      by (by apply segments_placeholder).
    assert (Hcomp : compiles t).
    { unfold compiles. rewrite Hseg. split; [apply NoDup_singleton|].
      cbn [first_rejected rejected]. unfold count_error. rewrite Hlen.
      apply N.leb_gt in Hsmall. by rewrite Hsmall. }
    assert (Hg : __init__ [t] = Ok {| patterns := [t]; regexes := compiled <$> [t] |}).
    { apply init_Ok. split_and!; [done| |done]. by constructor. }
    destruct (re_match_complete t [x] "") as [w Hw]; [| done |].
    { rewrite Hseg. cbn [modifiers omap list_omap]. by repeat constructor. }
    rewrite Hseg in Hw. cbn [fill] in Hw. rewrite !str_app_nil_r in Hw.
    eexists _, {| wrapped := w; pattern := t |}. split_and!; [done| |].
    { rewrite (match_line_spec _ _ _ Hg). cbn [first_match]. by rewrite Hw. }
    cbn [wrapped]. rewrite (group_compiled _ _ _ _ Hw), Hseg.
    cbn [indices omap list_omap fmap list_fmap].
    destruct (decide _) as [_|Hn]; [|exfalso; apply Hn; by left].
    apply re_match_sound in Hw as (xs & rest & Hl & He & Hxs & ->).
    rewrite Hseg in Hl, Hxs |- *. cbn [modifiers omap list_omap] in Hxs.
    apply Forall2_cons_inv_l in Hxs as (x0 & xs' & Hx0 & ->%Forall2_nil_inv_l & ->).
    cbn [fill bind_groups m_groups] in Hl |- *. rewrite str_app_nil_r in Hl.
    rewrite lookup_insert_eq. do 2 f_equal. cbn [captures] in Hx0.
    apply at_end_cases in He as [->| ->]; [by rewrite str_app_nil_r in Hl|].
    exfalso. rewrite Hl, count_spaces_app in Hx. simpl in Hx. lia.
  - intros index count Hi Hc.
    assert (Hseg : segments (placeholder index (SpacesLimited count))
                   = [Token index (SpacesLimited count)])
      by (by apply segments_placeholder).
    assert (∀ e, count_error count = Some e →
                 __init__ [placeholder index (SpacesLimited count)] = Raise e) as Herr.
    { intros e He. unfold __init__. cbn [map mapM].
      rewrite map_pattern_to_re_spec, Hseg.
      cbn [first_duplicate first_rejected rejected].
      rewrite decide_False by apply not_elem_of_empty. by rewrite He. }
    split.
    + intros Hlen. apply Herr. unfold count_error. by rewrite Hlen.
    + intros Hlen Hlarge. apply Herr. unfold count_error. rewrite Hlen.
      apply N.leb_le in Hlarge. by rewrite Hlarge.
  - intros t xs Hc Hxs.
    assert (Hg : __init__ [t] = Ok {| patterns := [t]; regexes := compiled <$> [t] |}).
    { apply init_Ok. split_and!; [done| |done]. by constructor. }
    destruct (re_match_complete t xs "" Hxs eq_refl) as [w Hw].
    rewrite str_app_nil_r in Hw.
    eexists _, {| wrapped := w; pattern := t |}. split; [done|].
    rewrite (match_line_spec _ _ _ Hg). cbn [first_match]. by rewrite Hw.
  - intros count x. by rewrite spaces_shape_count.
  - apply spaces_shape_count.
  - eexists _, _. split; reflexivity.
  - eexists. split; reflexivity.
  - reflexivity.
Qed.

Lemma spaces_limited_capture_witness :
  ∃ g m, __init__ ["a %{0S1}"] = Ok g
    ∧ match_line g "a b c" = Ok (Some m)
    ∧ ∃ x, group (wrapped m) (group_name "0") = Ok (Some x)
           ∧ spaces_shape (N.to_nat (int "1")) x.
Proof.
  eexists _, _. do 2 (split; [reflexivity|]).
  eapply (proj1 spaces_limited_capture ["a %{0S1}"] _ "a b c" _
            [Literal "a"; Literal " "] "0" "1" []); reflexivity.
Defined.

(** C5: a pattern set keeps its templates in their order and, beside them
    in the same order, the pattern compiled from each.  [match_line] tries
    these patterns in that order; the result is built from the first pattern
    that matches and carries the template that pattern was compiled from,
    and the pattern of no earlier template matches; when the pattern of no
    template matches the result is the no-match value; no exception is
    raised in either case. *)
Theorem match_line_first_wins (ts : list string) (g : Grepper) (l : string) :
  __init__ ts = Ok g →
  patterns g = ts
  ∧ Forall2 (λ t r, map_pattern_to_re (escape t) = Ok r) ts (regexes g)
  ∧ ((match_line g l = Ok None
      ∧ (∀ r, r ∈ regexes g → re_match r l = None)
      ∧ (∀ t r, t ∈ ts → map_pattern_to_re (escape t) = Ok r → re_match r l = None))
     ∨ (∃ i t r w,
          ts !! i = Some t ∧ regexes g !! i = Some r
          ∧ map_pattern_to_re (escape t) = Ok r
          ∧ re_match r l = Some w
          ∧ (∀ j r', j < i → regexes g !! j = Some r' → re_match r' l = None)
          ∧ (∀ j t' r', j < i → ts !! j = Some t' →
               map_pattern_to_re (escape t') = Ok r' → re_match r' l = None)
          ∧ match_line g l = Ok (Some {| wrapped := w; pattern := t |}))).
Proof.
  intros Hg. pose proof (match_line_spec _ _ l Hg) as Hl.
  pose proof (proj1 (init_Ok _ _) Hg) as (_ & Hc & Hgeq).
  split_and!.
  - by rewrite Hgeq.
  - rewrite Hgeq. cbn [regexes]. apply Forall2_fmap_r, Forall_Forall2_diag.
    eapply Forall_impl; [exact Hc|]. intros t Ht. by apply map_pattern_to_re_Ok.
  - destruct (first_match ts l) as [m|] eqn:Hf.
    + right. destruct (matched_facts _ _ _ _ Hg Hl) as (i & Hi & Hri & Hci & Hr & Hbefore).
      exists i, (pattern m), (compiled (pattern m)), (wrapped m).
      split_and!; [done|done|by apply map_pattern_to_re_Ok|done|done| |by destruct m].
      intros j t' r' Hj Ht' [_ ->]%map_pattern_to_re_Ok.
      apply (Hbefore j); [done|]. rewrite Hgeq. cbn [regexes].
      by rewrite list_lookup_fmap, Ht'.
    + left. pose proof (proj1 (first_match_None ts l) Hf) as Hnone.
      split_and!; [done| |].
      * rewrite Hgeq. cbn [regexes]. intros r (t & -> & Ht)%list_elem_of_fmap.
        by apply Hnone.
      * intros t r Ht [_ ->]%map_pattern_to_re_Ok. by apply Hnone.
Qed.

Lemma match_line_first_wins_witness :
  ∃ g, __init__ ["foo"; "baz"] = Ok g
       ∧ patterns g = ["foo"; "baz"]
       ∧ Forall2 (λ t r, map_pattern_to_re (escape t) = Ok r) ["foo"; "baz"] (regexes g)
       ∧ ((match_line g "baz" = Ok None
           ∧ (∀ r, r ∈ regexes g → re_match r "baz" = None)
           ∧ (∀ t r, t ∈ ["foo"; "baz"] → map_pattern_to_re (escape t) = Ok r
                → re_match r "baz" = None))
          ∨ (∃ i t r w,
               ["foo"; "baz"] !! i = Some t ∧ regexes g !! i = Some r
               ∧ map_pattern_to_re (escape t) = Ok r
               ∧ re_match r "baz" = Some w
               ∧ (∀ j r', j < i → regexes g !! j = Some r' → re_match r' "baz" = None)
               ∧ (∀ j t' r', j < i → ["foo"; "baz"] !! j = Some t' →
                    map_pattern_to_re (escape t') = Ok r' → re_match r' "baz" = None)
               ∧ match_line g "baz" = Ok (Some {| wrapped := w; pattern := t |}))).
Proof.
  eexists. split; [reflexivity|].
  eapply (match_line_first_wins ["foo"; "baz"]). reflexivity.
Defined.

(** The second pattern supplies the result for a line that only it matches,
    and a line that no pattern matches gives the no-match value. *)
Example first_match_wins_example :
  run ["foo"; "baz"] "baz" (λ m, Ok (pattern m)) = Ok (Some "baz")
  ∧ run ["foo"; "baz"] "foo" (λ m, Ok (pattern m)) = Ok (Some "foo")
  ∧ run ["foo"; "baz"] "blah" (λ m, Ok (pattern m)) = Ok None.
Proof. split_and!; reflexivity. Qed.




(** C7, as stated, fails for an index written with leading zeros: the
    template [%{00}] declares the index 0, and [token(0)] on a match of it
    raises [IndexError]. *)
Lemma leading_zero_index_not_found :
  declares (segments "%{00}") 0
  ∧ matches "%{00}" "a"
  ∧ run ["%{00}"] "a" (λ m, token m 0) = Raise (IndexError "no such group").
Proof.
  split_and!.
  - exists "00". split; [|reflexivity]. change (indices (segments "%{00}")) with ["00"].
    by left.
  - eexists _, _. split; reflexivity.
  - reflexivity.
Qed.

(** C7, amended: on a successful match, for an index that prints in decimal
    with at most 4300 digits, [token(index)] returns the text captured by
    the placeholder whose index is written exactly as [index] prints; for
    any other such index, also one that a placeholder writes with leading
    zeros, it raises [IndexError] to its caller.  For an index that prints
    with more than 4300 digits it raises the [ValueError] of the limit on
    the conversion of an integer to a string. *)
Theorem token_lookup (ts : list string) (g : Grepper) (l : string) (m : Match) (i : Z) :
  __init__ ts = Ok g → match_line g l = Ok (Some m) →
  (too_long (decimal (Z.abs i)) = true → token m i = Raise str_limit_error)
  ∧ (too_long (decimal (Z.abs i)) = false →
     (decimal i ∈ indices (segments (pattern m)) →
      ∃ xs rest x,
        l = fill (segments (pattern m)) xs +:+ rest
        ∧ Forall2 captures (modifiers (segments (pattern m))) xs
        ∧ at_end rest = true
        ∧ (decimal i, x) ∈ zip (indices (segments (pattern m))) xs
        ∧ token m i = Ok (Some x))
     ∧ (decimal i ∉ indices (segments (pattern m)) →
        token m i = Raise (IndexError "no such group"))).
Proof.
  intros Hg Hm. destruct (matched_facts _ _ _ _ Hg Hm) as (_ & _ & _ & [Hnd _] & Hr & _).
  rewrite token_group. split; [by intros ->|]. intros ->.
  rewrite (group_compiled _ _ _ _ Hr). split.
  - intros Hin. destruct (decide _) as [_|Hn]; [|exfalso; apply Hn; by apply list_elem_of_fmap_2].
    apply re_match_sound in Hr as (xs & rest & Hl & He & Hxs & ->).
    apply list_elem_of_lookup in Hin as [j Hj].
    assert (Hlen : length (indices (segments (pattern m))) = length xs).
    { rewrite length_indices_modifiers. by eapply Forall2_length. }
    destruct (lookup_lt_is_Some_2 xs j) as [x Hx].
    { rewrite <- Hlen. by eapply lookup_lt_Some. }
    assert (Hz : (decimal i, x) ∈ zip (indices (segments (pattern m))) xs).
    { apply list_elem_of_lookup. exists j.
      by apply lookup_zip_with_Some; exists (decimal i), x. }
    exists xs, rest, x. split_and!; [done..|]. cbn [m_groups].
    by rewrite (bind_groups_lookup _ _ _ _ _ Hnd Hz).
  - intros Hnotin. destruct (decide _) as [Hin|]; [|done].
    apply list_elem_of_fmap in Hin as (index & Heq & Hin).
    apply (inj group_name) in Heq as <-. done.
Qed.

Lemma token_lookup_witness :
  ∃ g m, __init__ ["foo %{0} is a %{1}"] = Ok g
    ∧ match_line g "foo blah is a very big boat" = Ok (Some m)
    ∧ token m 1 = Ok (Some "very big boat")
    ∧ token m 2 = Raise (IndexError "no such group").
Proof.
  eexists _, _. do 3 (split; [reflexivity|]).
  eapply (proj2 (proj2 (token_lookup ["foo %{0} is a %{1}"] _
                          "foo blah is a very big boat" _ 2 eq_refl eq_refl)
                   eq_refl)).
  intros H. by vm_compute in H; repeat (apply elem_of_cons in H as [H|H]; [done|]);
    apply elem_of_nil in H.
Defined.

(** C8, as stated, fails in its last part: a template whose count is
    4294967295 or more is rejected by the engine with [OverflowError], which
    is neither error of the program. *)
Lemma construction_can_overflow :
  __init__ ["%{0S4294967295}"] = Raise overflow
  ∧ ¬ DuplicateTokenIndex overflow
  ∧ overflow ≠ NoPatternsProvided.
Proof.
  split_and!; [reflexivity| |done]. by intros (index & m & shown & H).
Qed.

(** C8, amended: constructing a pattern set from zero templates fails with
    the error for no patterns; constructing from at least one template never
    fails with that error: a failure is then the error for a repeated index
    in a template, or the engine's rejection of a count of 4294967295 or
    more with [OverflowError], or the [ValueError] of the limit on the
    conversion of a string to an integer, for a count of more than 4300
    digits. *)
Theorem construction_errors (ts : list string) :
  (ts = [] → __init__ ts = Raise NoPatternsProvided)
  ∧ (ts ≠ [] → ∀ e, __init__ ts = Raise e →
       e ≠ NoPatternsProvided
       ∧ (DuplicateTokenIndex e ∨ e = overflow
          ∨ ∃ n, 4300 < n ∧ e = int_limit_error n)).
Proof.
  split; [by intros ->|]. intros Hne e He.
  unfold __init__ in He. destruct ts as [|t ts]; [done|].
  destruct (mapM map_pattern_to_re (map escape (t :: ts))) as [rs|e'] eqn:Hm;
    cbn [mbind result_bind] in He; [done|]. injection He as ->.
  apply mapM_Raise_inv in Hm as (pre & x & post & Hl & _ & Hx).
  assert (x ∈ map escape (t :: ts)) as (t' & -> & _)%list_elem_of_fmap
    by (rewrite Hl; apply elem_of_app; right; by left).
  rewrite map_pattern_to_re_spec in Hx.
  destruct (first_duplicate (segments t') ∅) as [[index m]|].
  - injection Hx as <-. split; [done|]. left. by eexists _, _, _.
  - destruct (first_rejected (segments t')) as [e'|] eqn:Hrej; [|done].
    injection Hx as <-.
    apply first_rejected_Some in Hrej as [->|(n & Hn & ->)].
    + split; [done|]. right. by left.
    + split; [by intros [= H]|]. right. right. by exists n.
Qed.

Lemma construction_errors_witness :
  __init__ ["foo %{0} is a %{0}"]
    = Raise (ValueError "Duplicate token index %{0} in 'foo %{0} is a %{0}'")
  ∧ ValueError "Duplicate token index %{0} in 'foo %{0} is a %{0}'" ≠ NoPatternsProvided
  ∧ (DuplicateTokenIndex (ValueError "Duplicate token index %{0} in 'foo %{0} is a %{0}'")
     ∨ ValueError "Duplicate token index %{0} in 'foo %{0} is a %{0}'" = overflow
     ∨ ∃ n, 4300 < n
            ∧ ValueError "Duplicate token index %{0} in 'foo %{0} is a %{0}'"
              = int_limit_error n).
Proof.
  split; [reflexivity|].
  apply (proj2 (construction_errors ["foo %{0} is a %{0}"])); [done|reflexivity].
Defined.

(** C9: whenever [match_line] succeeds, the [line] of the result is the line
    that was passed in, character for character. *)
Theorem line_is_input (ts : list string) (g : Grepper) (l : string) (m : Match) :
  __init__ ts = Ok g → match_line g l = Ok (Some m) → line m = l.
Proof.
  intros Hg Hm. destruct (matched_facts _ _ _ _ Hg Hm) as (_ & _ & _ & _ & Hr & _).
  apply re_match_sound in Hr as (xs & rest & _ & _ & _ & Hw).
  unfold line. by rewrite Hw.
Qed.

Lemma line_is_input_witness :
  ∃ g m, __init__ ["foo %{0} is a %{1}"] = Ok g
         ∧ match_line g "foo blah is a bar" = Ok (Some m)
         ∧ line m = "foo blah is a bar".
Proof.
  eexists _, _. split_and!; [reflexivity|reflexivity|].
  eapply (line_is_input ["foo %{0} is a %{1}"]); reflexivity.
Defined.

(** C10: the check for a repeated index compares the digits of the
    placeholders, not their values: compiling a template fails with the
    error for a repeated index exactly when two of its placeholders are
    written with the same digits.  The template [%{0} %{00}], whose two
    placeholders both have the value 0, compiles to a pattern with the two
    groups [token_0] and [token_00], and [token(0)] on a match of it is the
    text captured by [%{0}]; more generally [token(0)] is the text that
    stands where the template has a placeholder written [%{0...}] with the
    single digit 0. *)
Theorem duplicate_check_compares_digits :
  (∀ t, (∃ e, map_pattern_to_re (escape t) = Raise e ∧ DuplicateTokenIndex e)
        ↔ ¬ NoDup (indices (segments t)))
  ∧ int "0" = int "00"
  ∧ indices (segments "%{0} %{00}") = ["0"; "00"]
  ∧ (r ← map_pattern_to_re (escape "%{0} %{00}"); Ok (groupindex r))
    = Ok ["token_0"; "token_00"]
  ∧ run ["%{0} %{00}"] "a b"
      (λ m, a ← token m 0; b ← group (wrapped m) "token_00"; Ok (a, b))
    = Ok (Some (Some "a", Some "b"))
  ∧ (∀ ts g l m l1 md l2,
       __init__ ts = Ok g → match_line g l = Ok (Some m) →
       segments (pattern m) = l1 ++ Token "0" md :: l2 →
       ∃ xs1 x q, l = fill l1 xs1 +:+ x +:+ q
                  ∧ Forall2 captures (modifiers l1) xs1
                  ∧ rest_matches l2 q
                  ∧ token m 0 = Ok (Some x)).
Proof.
  split_and!; [|reflexivity..|].
  - intros t. rewrite map_pattern_to_re_spec. split.
    + intros (e & He & index & m & shown & ->).
      destruct (first_duplicate (segments t) ∅) as [[index' m']|] eqn:Hd.
      * intros Hnd. assert (first_duplicate (segments t) ∅ = None); [|congruence].
        apply first_duplicate_None. split; [done|]. intros i _. apply not_elem_of_empty.
      * destruct (first_rejected (segments t)) as [e'|] eqn:Hrej; [|done].
        injection He as ->. exfalso.
        apply first_rejected_Some in Hrej as [Heq|(n & _ & Heq)]; discriminate Heq.
    + intros Hdup. destruct (first_duplicate (segments t) ∅) as [[index m]|] eqn:Hd.
      * eexists. split; [done|]. by eexists _, _, _.
      * exfalso. apply Hdup. by apply first_duplicate_None in Hd as [? _].
  - intros ts g l m l1 md l2 Hg Hm Hseg.
    destruct (matched_placeholder _ _ _ _ _ _ _ _ Hg Hm Hseg)
      as (xs1 & x & q & Hl & Hxs1 & _ & Hq & Hgroup & _).
    by exists xs1, x, q.
Qed.

(** * Further properties of the program *)

(** ** Escaping and unescaping *)

Lemma unescape_escape_cons (c : ascii) (s : string) :
  _unescape (escape (String c s))
  = (if Ascii.eqb c newline then String backslash (String c "") else String c "")
    +:+ _unescape (escape s).
Proof.
  cbn [escape]. unfold escape_char. destruct (is_special c) eqn:Hc.
  - rewrite !str_app_cons, str_app_nil_l. cbn [_unescape].
    destruct (Ascii.eqb c newline) eqn:Hn.
    + apply Ascii.eqb_eq in Hn as ->. reflexivity.
    + by rewrite str_app_cons, str_app_nil_l.
  - pose proof (not_special_cases _ Hc) as (Hb & _ & _).
    rewrite str_app_cons, str_app_nil_l. cbn [_unescape]. rewrite Hb.
    destruct (Ascii.eqb c newline) eqn:Hn.
    + apply Ascii.eqb_eq in Hn as ->. vm_compute in Hc. discriminate.
    + by rewrite str_app_cons, str_app_nil_l.
Qed.

Lemma unescape_escape_length (s : string) :
  String.length s ≤ String.length (_unescape (escape s))
  ∧ (has_newline s = true → String.length s < String.length (_unescape (escape s))).
Proof.
  induction s as [|c s [IH1 IH2]]; [split; [done|discriminate]|].
  rewrite unescape_escape_cons, str_length_app. unfold has_newline. cbn [existsb_str].
  rewrite (Ascii.eqb_sym newline c).
  destruct (Ascii.eqb c newline); cbn [String.length orb].
  - split; [lia|]. intros _. lia.
  - split; [lia|]. intros H. apply IH2 in H. lia.
Qed.

(** X1: [_unescape] gives back the text that [re.escape] was applied to exactly
    when the text has no newline: the backslash that [re.escape] puts before
    a newline is kept, since [.] in [_unescape] does not match a newline. *)
Theorem unescape_inverts_escape (s : string) :
  _unescape (escape s) = s ↔ has_newline s = false.
Proof.
  split; [|apply unescape_escape].
  intros H. destruct (has_newline s) eqn:Hn; [|done].
  destruct (unescape_escape_length s) as [_ Hlt]. specialize (Hlt Hn).
  rewrite H in Hlt. lia.
Qed.

(** ** The replacement of a placeholder *)

(** X2: For every match of the token-capture pattern, [_map_token_to_re] either
    raises the error for an index that was seen before, or returns a named
    group for the index, never [None], and adds the index to the seen ones. *)
Theorem token_always_replaced (subject s : string) (tm : token_match) (seen : gset string) :
  _TOKEN_CAPTURE_RE subject s = Some tm →
  digits (tm_index tm)
  ∧ (tm_index tm ∈ seen →
     _map_token_to_re tm seen
     = Raise (ValueError ("Duplicate token index " +:+ _unescape (tm_group0 tm)
                          +:+ " in " +:+ repr (_unescape subject))))
  ∧ (tm_index tm ∉ seen →
     ∃ body,
       _map_token_to_re tm seen
       = Ok (Some ("(?P<token_" +:+ tm_index tm +:+ ">" +:+ body +:+ ")"),
             {[tm_index tm]} ∪ seen)
       ∧ (body = ".*?" ∨ body = ".*"
          ∨ ∃ n, digits n ∧ body = "(?:\S*\s\S*){" +:+ n +:+ "}\S*")).
Proof.
  unfold _TOKEN_CAPTURE_RE.
  destruct (match_placeholder _ _ s) as [[[index m] rest]|] eqn:Hm; [|done].
  cbn. intros [= <-]. cbn.
  apply match_placeholder_spec in Hm as (Hi & Hm). split; [done|].
  assert (m = None ∨ m = Some "G" ∨ ∃ n, digits n ∧ m = Some (String "S" n)) as Hm'.
  { destruct Hm as [[-> _]|[[-> _]|(n & Hn & -> & _)]]; eauto. }
  rewrite (map_token_to_re_spec _ _ _ _ _ Hm').
  destruct (decide (index ∈ seen)) as [|Hnot]; [done|]. split; [done|]. intros _.
  exists (modifier_regex (modifier_of m)). split; [done|].
  destruct Hm' as [->|[->|(n & Hn & ->)]]; cbn; eauto.
Qed.

Lemma token_always_replaced_witness :
  ∃ body,
    _map_token_to_re
      {| tm_group0 := "%\{7S2\}"; tm_index := "7"; tm_modifier := Some "S2";
         tm_string := "a\ %\{7S2\}" |} ∅
    = Ok (Some ("(?P<token_" +:+ "7" +:+ ">" +:+ body +:+ ")"), {["7"]} ∪ ∅)
    ∧ (body = ".*?" ∨ body = ".*"
       ∨ ∃ n, digits n ∧ body = "(?:\S*\s\S*){" +:+ n +:+ "}\S*").
Proof.
  apply (token_always_replaced "a\ %\{7S2\}" "%\{7S2\}"
           {| tm_group0 := "%\{7S2\}"; tm_index := "7"; tm_modifier := Some "S2";
              tm_string := "a\ %\{7S2\}" |} ∅ eq_refl).
  apply not_elem_of_empty.
Defined.

(** ** Templates without placeholders *)


Lemma is_Some_re_match (t l : string) :
  is_Some (re_match (compiled t) l)
  ↔ ∃ xs rest, l = fill (segments t) xs +:+ rest
               ∧ Forall2 captures (modifiers (segments t)) xs ∧ at_end rest = true.
Proof.
  split.
  - intros [m (xs & rest & ? & ? & ? & _)%re_match_sound]. by exists xs, rest.
  - intros (xs & rest & -> & Hxs & Hrest). by apply re_match_complete.
Qed.

Lemma segments_no_token (t : string) (xs : list string) :
  modifiers (segments t) = [] →
  fill (segments t) xs = t ∧ indices (segments t) = []
  ∧ first_rejected (segments t) = None.
Proof.
  revert xs. induction t as [|c t Hc IH|t index m rest Hm _] using template_ind; intros xs.
  - done.
  - rewrite (segments_cons_literal _ _ Hc). intros H.
    destruct (IH xs H) as (H1 & H2 & H3).
    split_and!; [cbn [fill]; by rewrite H1|exact H2|exact H3].
  - by rewrite (segments_cons_token _ _ _ _ Hm).
Qed.

Lemma init_singleton (t : string) (g : Grepper) :
  __init__ [t] = Ok g ↔ compiles t ∧ g = {| patterns := [t]; regexes := [compiled t] |}.
Proof.
  rewrite init_Ok, Forall_singleton. cbn. split.
  - by intros (_ & ? & ?).
  - by intros [? ?].
Qed.

Lemma matches_iff (t l : string) :
  matches t l
  ↔ compiles t ∧ ∃ xs rest, l = fill (segments t) xs +:+ rest
                            ∧ Forall2 captures (modifiers (segments t)) xs
                            ∧ at_end rest = true.
Proof.
  unfold matches. split.
  - intros (g & m & Hg & Hm). pose proof Hg as [Hc _]%init_singleton. split; [done|].
    rewrite (match_line_spec _ _ _ Hg) in Hm.
    apply is_Some_re_match. cbn [first_match] in Hm.
    destruct (re_match (compiled t) l); [done|discriminate].
  - intros (Hc & Hr%is_Some_re_match).
    assert (__init__ [t] = Ok {| patterns := [t]; regexes := [compiled t] |}) as Hg
      by by apply init_singleton.
    destruct Hr as [w Hw]. eexists _, _. split; [done|].
    rewrite (match_line_spec _ _ _ Hg). cbn [first_match]. by rewrite Hw.
Qed.

(** X3: A template without placeholders compiles, and the lines that it matches
    are the template itself and the template followed by one newline. *)
Theorem plain_template_matches_itself (t l : string) :
  modifiers (segments t) = [] →
  matches t l ↔ l = t ∨ l = t +:+ String newline "".
Proof.
  intros Ht. rewrite matches_iff. split.
  - intros (_ & xs & rest & -> & _ & [->| ->]%at_end_cases);
      destruct (segments_no_token t xs Ht) as (-> & _).
    + left. by rewrite str_app_nil_r.
    + by right.
  - intros Hl. destruct (segments_no_token t [] Ht) as (Hf & Hi & Hl').
    split; [split; [rewrite Hi; constructor|done]|].
    exists []. rewrite Ht, Hf. destruct Hl as [->| ->].
    + exists "". by rewrite str_app_nil_r.
    + by exists (String newline "").
Qed.

Lemma plain_template_matches_itself_witness :
  matches "100%{x} (a|b)*" "100%{x} (a|b)*"
  ↔ "100%{x} (a|b)*" = "100%{x} (a|b)*"
    ∨ "100%{x} (a|b)*" = "100%{x} (a|b)*" +:+ String newline "".
Proof. apply plain_template_matches_itself. reflexivity. Defined.

(** ** Pattern sets *)

Lemma first_match_app (ts1 ts2 : list string) (l : string) :
  first_match (ts1 ++ ts2) l
  = match first_match ts1 l with
    | Some m => Some m
    | None => first_match ts2 l
    end.
Proof.
  induction ts1 as [|t ts1 IH]; [done|].
  cbn [app first_match]. by destruct (re_match (compiled t) l).
Qed.


Lemma is_Some_first_match (ts : list string) (l : string) :
  is_Some (first_match ts l) ↔ ∃ t, t ∈ ts ∧ is_Some (re_match (compiled t) l).
Proof.
  split.
  - intros [m (i & t & Hi & _ & Hr & _)%first_match_Some].
    exists t. split; [by eapply list_elem_of_lookup_2|]. by rewrite Hr.
  - intros (t & Ht & Hr). destruct (first_match ts l) eqn:Hf; [done|].
    rewrite first_match_None in Hf. rewrite (Hf t Ht) in Hr. by destruct Hr.
Qed.

(** X4: The pattern set built from two sequences of templates, one after the
    other, finds for a line what the set of the first sequence finds and, when
    that finds nothing, what the set of the second finds. *)
Theorem pattern_sets_compose (ts1 ts2 : list string) (g1 g2 : Grepper) (l : string) :
  __init__ ts1 = Ok g1 → __init__ ts2 = Ok g2 →
  ∃ g, __init__ (ts1 ++ ts2) = Ok g
    ∧ match_line g l
      = match match_line g1 l with
        | Ok None => match_line g2 l
        | found => found
        end.
Proof.
  intros Hg1 Hg2.
  pose proof Hg1 as (Hne1 & Hc1 & _)%init_Ok. pose proof Hg2 as (_ & Hc2 & _)%init_Ok.
  assert (∃ g, __init__ (ts1 ++ ts2) = Ok g) as [g Hg].
  { eexists. apply init_Ok. split_and!; [|by apply Forall_app|done].
    by destruct ts1. }
  exists g. split; [done|].
  rewrite (match_line_spec _ _ _ Hg), (match_line_spec _ _ _ Hg1),
    (match_line_spec _ _ _ Hg2), first_match_app.
  by destruct (first_match ts1 l).
Qed.

Lemma pattern_sets_compose_witness :
  ∃ g1 g2 g,
    __init__ ["foo"] = Ok g1 ∧ __init__ ["%{0}"; "baz"] = Ok g2
    ∧ __init__ (["foo"] ++ ["%{0}"; "baz"]) = Ok g
    ∧ match_line g "baz"
      = match match_line g1 "baz" with
        | Ok None => match_line g2 "baz"
        | found => found
        end.
Proof.
  eexists _, _.
  destruct (pattern_sets_compose ["foo"] ["%{0}"; "baz"] _ _ "baz" eq_refl eq_refl)
    as (g & Hg & Hm).
  exists g. by split_and!.
Defined.


Lemma init_Raise (ts : list string) (e : exn) :
  __init__ ts = Raise e →
  (ts = [] ∧ e = NoPatternsProvided)
  ∨ ∃ pre t post, ts = pre ++ t :: post ∧ Forall compiles pre
                  ∧ map_pattern_to_re (escape t) = Raise e.
Proof.
  destruct ts as [|t0 ts]; [intros [= <-]; by left|].
  unfold __init__. destruct (mapM _ _) as [rs|e'] eqn:Hm; [done|].
  intros [= ->]. right. apply mapM_Raise_inv in Hm as (pre & x & post & Hl & Hpre & Hx).
  change (map escape ?l) with (escape <$> l) in Hl.
  apply fmap_app_inv in Hl as (pre' & rest & -> & Hrest & Hts).
  symmetry in Hrest. apply fmap_cons_inv in Hrest as (t & post' & -> & -> & ->).
  exists pre', t, post'. split_and!; [done| |done].
  rewrite Forall_fmap in Hpre. eapply Forall_impl; [exact Hpre|].
  intros p [y Hy]. cbn in Hy. by apply map_pattern_to_re_Ok in Hy as [? _].
Qed.

(** X5: Construction goes template by template: a pattern set is built exactly
    when there is a template and each template alone builds one; and
    construction fails with the error of the first template that alone fails,
    whatever follows it. *)
Theorem construction_is_templatewise (ts : list string) :
  ((∃ g, __init__ ts = Ok g) ↔ ts ≠ [] ∧ ∀ t, t ∈ ts → ∃ g, __init__ [t] = Ok g)
  ∧ ∀ e, __init__ ts = Raise e
         ↔ (ts = [] ∧ e = NoPatternsProvided)
           ∨ ∃ pre t post, ts = pre ++ t :: post
                           ∧ (∀ p, p ∈ pre → ∃ g, __init__ [p] = Ok g)
                           ∧ __init__ [t] = Raise e.
Proof.
  assert (∀ t, (∃ g, __init__ [t] = Ok g) ↔ compiles t) as Hone.
  { intros t. split; [by intros [g [? _]%init_singleton]|].
    intros Hc. eexists. by apply init_singleton. }
  assert (∀ t e, __init__ [t] = Raise e ↔ map_pattern_to_re (escape t) = Raise e) as Hfail.
  { intros t e. unfold __init__. cbn [map mapM].
    destruct (map_pattern_to_re (escape t)); cbn; split; intros H;
      first [discriminate H|by injection H as ->]. }
  split.
  - split.
    + intros [g (Hne & Hc & _)%init_Ok]. split; [done|].
      intros t Ht. apply Hone. by eapply Forall_forall in Hc.
    + intros [Hne Hall]. eexists. apply init_Ok. split_and!; [done| |done].
      apply Forall_forall. intros t Ht. by apply Hone, Hall.
  - intros e. split.
    + intros [[-> ->]|(pre & t & post & -> & Hpre & Ht)]%init_Raise; [by left|].
      right. exists pre, t, post. split_and!; [done| |by apply Hfail].
      intros p Hp. apply Hone. by eapply Forall_forall in Hpre.
    + intros [[-> ->]|(pre & t & post & -> & Hpre & Ht)]; [done|].
      apply Hfail in Ht. unfold __init__.
      destruct (pre ++ t :: post) eqn:Heq; [by destruct pre|]. rewrite <- Heq.
      change (map escape ?l) with (escape <$> l). rewrite fmap_app, fmap_cons.
      rewrite (mapM_Raise _ _ _ _ e); [done| |done].
      apply Forall_fmap, Forall_forall. intros p Hp. cbn.
      apply Hpre, Hone in Hp. eexists. by apply map_pattern_to_re_Ok.
Qed.

(** ** The captured texts and the matched line *)

Lemma zip_middle {A B} (l1 : list A) (a : A) (l2 : list A) (k1 : list B) (b : B) (k2 : list B) :
  length l1 = length k1 → (a, b) ∈ zip (l1 ++ a :: l2) (k1 ++ b :: k2).
Proof.
  intros Hl. rewrite zip_with_app by done. apply elem_of_app. right. by left.
Qed.

Lemma indices_app (l1 l2 : list segment) : indices (l1 ++ l2) = indices l1 ++ indices l2.
Proof. unfold indices. by rewrite omap_app. Qed.

Lemma modifiers_app (l1 l2 : list segment) :
  modifiers (l1 ++ l2) = modifiers l1 ++ modifiers l2.
Proof. unfold modifiers. by rewrite omap_app. Qed.

Lemma substitute_fill (t l : string) (w : ReMatch) (l1 l2 : list segment)
    (xs1 xs2 : list string) :
  re_match (compiled t) l = Some w →
  NoDup (indices (segments t)) →
  segments t = l1 ++ l2 →
  m_groups w = bind_groups (segments t) (xs1 ++ xs2) ∅ →
  length (modifiers l1) = length xs1 →
  length (modifiers l2) = length xs2 →
  substitute l2 w = Ok (fill l2 xs2).
Proof.
  intros Hw Hnd. revert l1 xs1 xs2.
  induction l2 as [|[c|index md] l2 IH]; intros l1 xs1 xs2 Hseg Hg Hl1 Hl2.
  - done.
  - cbn [substitute fill].
    rewrite (IH (l1 ++ [Literal c]) xs1 xs2); [done| |done| |done].
    + by rewrite Hseg, cons_middle, (assoc_L (++)).
    + by rewrite modifiers_app, app_nil_r.
  - destruct xs2 as [|x xs2]; [done|]. cbn [substitute fill].
    rewrite (group_compiled _ _ _ _ Hw), decide_True.
    2:{ apply list_elem_of_fmap. exists index. split; [done|].
        rewrite Hseg, indices_app. apply elem_of_app. right. by left. }
    rewrite Hg, (bind_groups_lookup _ _ _ index x); [|done|].
    2:{ rewrite Hseg, indices_app. apply zip_middle.
        by rewrite length_indices_modifiers. }
    cbn. rewrite (IH (l1 ++ [Token index md]) (xs1 ++ [x]) xs2); [done| | | |].
    + by rewrite Hseg, cons_middle, (assoc_L (++)).
    + by rewrite Hg, (cons_middle x), (assoc_L (++)).
    + rewrite modifiers_app, !length_app. cbn. lia.
    + change (S (length (modifiers l2)) = S (length xs2)) in Hl2. lia.
Qed.

(** X6: The captured texts account for the whole match: the template with, in
    the place of each placeholder, the text of its group is the matched text
    [group(0)], which is the line, or the line without its final newline. *)
Theorem tokens_rebuild_line (ts : list string) (g : Grepper) (l : string) (m : Match) :
  __init__ ts = Ok g → match_line g l = Ok (Some m) →
  substitute (segments (pattern m)) (wrapped m) = Ok (group0 (wrapped m))
  ∧ (l = group0 (wrapped m) ∨ l = group0 (wrapped m) +:+ String newline "").
Proof.
  intros Hg Hm.
  destruct (matched_facts _ _ _ _ Hg Hm) as (_ & _ & _ & [Hnd _] & Hr & _).
  pose proof Hr as (xs & rest & Hl & Hrest & Hxs & Hw)%re_match_sound.
  assert (group0 (wrapped m) = fill (segments (pattern m)) xs) as ->.
  { rewrite Hw. unfold group0. cbn. by rewrite Hl, take_str_app. }
  split.
  - apply (substitute_fill _ _ _ [] _ [] xs Hr Hnd); [done|by rewrite Hw|done|].
    by apply Forall2_length in Hxs.
  - apply at_end_cases in Hrest as [->| ->]; [left|right]; [|done].
    by rewrite str_app_nil_r in Hl.
Qed.

Lemma tokens_rebuild_line_witness :
  ∃ g m, __init__ ["the %{0S1} %{1} ran away"] = Ok g
    ∧ match_line g "the big brown fox ran away" = Ok (Some m)
    ∧ substitute (segments (pattern m)) (wrapped m) = Ok (group0 (wrapped m))
    ∧ ("the big brown fox ran away" = group0 (wrapped m)
       ∨ "the big brown fox ran away" = group0 (wrapped m) +:+ String newline "").
Proof.
  eexists _, _. split; [reflexivity|]. split; [reflexivity|].
  eapply (tokens_rebuild_line ["the %{0S1} %{1} ran away"]); reflexivity.
Defined.

(** The texts captured for the placeholder that follows [l1] in the template
    of a match and for the placeholders after it, and the groups of the
    match. *)
Lemma matched_placeholder_groups (ts : list string) (g : Grepper) (l : string) (m : Match)
    (l1 l2 : list segment) (index : string) (md : modifier) :
  __init__ ts = Ok g → match_line g l = Ok (Some m) →
  segments (pattern m) = l1 ++ Token index md :: l2 →
  ∃ xs1 x xs2 rest,
    l = fill l1 xs1 +:+ x +:+ fill l2 xs2 +:+ rest
    ∧ Forall2 captures (modifiers l1) xs1
    ∧ captures md x
    ∧ Forall2 captures (modifiers l2) xs2
    ∧ at_end rest = true
    ∧ m_groups (wrapped m)
      = bind_groups l2 xs2 (<[group_name index := x]> (bind_groups l1 xs1 ∅))
    ∧ (md = Lazy → ∀ x' q', x +:+ fill l2 xs2 +:+ rest = x' +:+ q' →
         String.length x' < String.length x → ¬ rest_matches l2 q')
    ∧ (md = Greedy → ∀ x' q', x +:+ fill l2 xs2 +:+ rest = x' +:+ q' →
         has_newline x' = false →
         String.length x < String.length x' → ¬ rest_matches l2 q').
Proof.
  intros Hg Hm Hseg.
  destruct (matched_facts _ _ _ _ Hg Hm) as (i & _ & _ & _ & Hr & _).
  unfold re_match in Hr.
  destruct (exec _ accept 0 l ∅) as [[e gr]|] eqn:Hex; [|done].
  cbn [mbind option_bind] in Hr. injection Hr as <-. cbn [m_groups].
  change (p_ast (compiled (pattern m)))
    with (Seq Bol (segments_ast (segments (pattern m)))) in Hex.
  cbn [exec Nat.eqb] in Hex. rewrite Hseg in Hex.
  apply exec_placeholder in Hex
    as (xs1 & x & q & xs2 & rest & -> & Hxs1 & Hx & -> & Hxs2 & He & Hres & Hmin & Hmax).
  cbn [snd] in Hres. subst gr. by exists xs1, x, xs2, rest.
Qed.

Lemma has_newline_app (x y : string) :
  has_newline (x +:+ y) = has_newline x || has_newline y.
Proof. apply existsb_str_app. Qed.

Lemma captures_plain_app (m : modifier) (x y : string) :
  m = Lazy ∨ m = Greedy → has_newline x = false → captures m y → captures m (x +:+ y).
Proof.
  intros [->| ->] Hx Hy; cbn in *; by rewrite has_newline_app, Hx, Hy.
Qed.

Lemma captures_plain_empty (m : modifier) : m = Lazy ∨ m = Greedy → captures m "".
Proof. by intros [->| ->]. Qed.

Lemma captures_plain_no_newline (m : modifier) (x : string) :
  m = Lazy ∨ m = Greedy → captures m x → has_newline x = false.
Proof. by intros [->| ->]. Qed.

(** X7: Two placeholders without a count that stand next to each other do not
    share the text between them: when the first has no modifier it captures
    nothing, and when the first has the modifier [G] the second captures
    nothing. *)
Theorem adjacent_placeholders (ts : list string) (g : Grepper) (l : string) (m : Match)
    (l1 l2 : list segment) (i j : string) (mi mj : modifier) :
  __init__ ts = Ok g → match_line g l = Ok (Some m) →
  segments (pattern m) = l1 ++ Token i mi :: Token j mj :: l2 →
  mj = Lazy ∨ mj = Greedy →
  (mi = Lazy → group (wrapped m) (group_name i) = Ok (Some ""))
  ∧ (mi = Greedy → group (wrapped m) (group_name j) = Ok (Some "")).
Proof.
  intros Hg Hm Hseg Hmj.
  destruct (matched_facts _ _ _ _ Hg Hm) as (_ & _ & _ & [Hnd _] & Hr & _).
  destruct (matched_placeholder_groups _ _ _ _ _ _ _ _ Hg Hm Hseg)
    as (xs1 & x & xs2 & rest & Hl & Hxs1 & Hx & Hxs2 & Hrest & Hgr & Hmin & Hmax).
  change (modifiers (Token j mj :: l2)) with (mj :: modifiers l2) in Hxs2.
  apply Forall2_cons_inv_l in Hxs2 as (xj & xs2' & Hxj & Hxs2 & ->).
  cbn [fill bind_groups] in *.
  rewrite Hseg, indices_app in Hnd. apply NoDup_app in Hnd as (_ & _ & Hnd).
  change (indices (Token i mi :: Token j mj :: l2)) with (i :: j :: indices l2) in Hnd.
  apply NoDup_cons in Hnd as [Hi Hnd]. apply NoDup_cons in Hnd as [Hj Hnd].
  apply not_elem_of_cons in Hi as [Hij Hi]. rewrite str_app_assoc in Hmin, Hmax.
  assert (Hgi : group (wrapped m) (group_name i) = Ok (Some x)).
  { rewrite (group_compiled _ _ _ _ Hr), decide_True.
    2:{ apply list_elem_of_fmap_2. rewrite Hseg, indices_app. apply elem_of_app.
        right. by left. }
    rewrite Hgr, bind_groups_other by done.
    rewrite lookup_insert_ne; [by rewrite lookup_insert_eq|].
    by intros Heq%(inj group_name). }
  assert (Hgj : group (wrapped m) (group_name j) = Ok (Some xj)).
  { rewrite (group_compiled _ _ _ _ Hr), decide_True.
    2:{ apply list_elem_of_fmap_2. rewrite Hseg, indices_app. apply elem_of_app.
        right. right. by left. }
    by rewrite Hgr, bind_groups_other, lookup_insert_eq. }
  split.
  - intros ->. rewrite Hgi. do 2 f_equal.
    destruct x as [|c x]; [done|]. exfalso.
    apply (Hmin eq_refl "" (String c x +:+ xj +:+ fill l2 xs2' +:+ rest));
      [by rewrite str_app_nil_l|cbn; lia|].
    exists ((String c x +:+ xj) :: xs2'), rest. split_and!; [|constructor|]; try done.
    + cbn [fill]. by rewrite !str_app_assoc.
    + by apply captures_plain_app.
  - intros ->. rewrite Hgj. do 2 f_equal.
    destruct xj as [|c xj]; [done|]. exfalso.
    apply (Hmax eq_refl (x +:+ String c xj) (fill l2 xs2' +:+ rest)).
    + by rewrite !str_app_assoc.
    + rewrite has_newline_app. cbn in Hx. rewrite Hx.
      by rewrite (captures_plain_no_newline _ _ Hmj Hxj).
    + rewrite str_length_app. cbn. lia.
    + exists ("" :: xs2'), rest. split_and!; [|constructor|]; try done.
      by apply captures_plain_empty.
Qed.

Lemma adjacent_placeholders_witness :
  ∃ g m, __init__ ["a%{0}%{1G}b"] = Ok g
    ∧ match_line g "a-text-b" = Ok (Some m)
    ∧ (Lazy = Lazy → group (wrapped m) (group_name "0") = Ok (Some ""))
    ∧ (Lazy = Greedy → group (wrapped m) (group_name "1") = Ok (Some "")).
Proof.
  eexists _, _. split; [reflexivity|]. split; [reflexivity|].
  eapply (adjacent_placeholders ["a%{0}%{1G}b"] _ "a-text-b" _
            [Literal "a"] [Literal "b"] "0" "1" Lazy Greedy);
    [reflexivity|reflexivity|reflexivity|by right].
Defined.

(** ** The lines of a text and [rstrip] *)

Lemma rstrip_not_newline_end (raw x : string) :
  rstrip (String newline "") raw ≠ x +:+ String newline "".
Proof.
  revert x. induction raw as [|c s IH]; intros x.
  - destruct x; discriminate.
  - cbn [rstrip]. destruct (rstrip (String newline "") s) as [|a r] eqn:Hr.
    + cbn [existsb_str]. rewrite orb_false_r.
      destruct (Ascii.eqb c newline) eqn:Hc.
      * destruct x; discriminate.
      * destruct x as [|b [|? ?]]; try discriminate.
        intros [= ->]. discriminate.
    + destruct x as [|b x]; [by destruct r|].
      rewrite str_app_cons. intros [= -> H]. by apply (IH x).
Qed.














(** ** What [main] writes *)



Lemma filter_sublist {A} (f : A → bool) (l : list A) : List.filter f l `sublist_of` l.
Proof.
  induction l as [|x l IH]; [done|]. cbn.
  destruct (f x); [by apply sublist_skip|by apply sublist_cons].
Qed.


Lemma filter_fmap {A B} (f : B → bool) (h : A → B) (l : list A) :
  List.filter f (h <$> l) = h <$> List.filter (f ∘ h) l.
Proof.
  induction l as [|x l IH]; [done|]. cbn. destruct (f (h x)); cbn; by rewrite IH.
Qed.


Lemma selects_first_match (ts : list string) (g : Grepper) (l : string) :
  __init__ ts = Ok g → selects g l = bool_decide (is_Some (first_match ts l)).
Proof.
  intros Hg. unfold selects. rewrite (match_line_spec _ _ _ Hg).
  destruct (first_match ts l).
  - symmetry. by apply bool_decide_eq_true.
  - symmetry. apply bool_decide_eq_false. by intros [? ?].
Qed.













(** X9: A line is written by [main] exactly when, without the newlines at its
    end, it is one of the templates with a text that the placeholder can
    capture in the place of each placeholder; no newline remains unmatched
    after the template, as [Pattern.match] alone would allow. *)
Theorem main_line_criterion (ts : list string) (g : Grepper) (raw : string) :
  __init__ ts = Ok g →
  selects g (rstrip (String newline "") raw) = true
  ↔ ∃ t, t ∈ ts ∧ instance_of t (rstrip (String newline "") raw).
Proof.
  intros Hg. rewrite (selects_first_match _ _ _ Hg), bool_decide_eq_true.
  rewrite is_Some_first_match. apply exist_proper. intros t.
  apply and_iff_compat_l. rewrite is_Some_re_match. split.
  - intros (xs & rest & Hl & Hxs & [->| ->]%at_end_cases).
    + exists xs. by rewrite str_app_nil_r in Hl.
    + by apply rstrip_not_newline_end in Hl.
  - intros (xs & Hl & Hxs). exists xs, "". by rewrite str_app_nil_r.
Qed.

Lemma main_line_criterion_witness :
  ∃ g, __init__ ["foo"] = Ok g
    ∧ (selects g (rstrip (String newline "") (with_newline "foo")) = true
       ↔ ∃ t, t ∈ ["foo"]
              ∧ instance_of t (rstrip (String newline "") (with_newline "foo"))).
Proof.
  eexists. split; [reflexivity|]. apply (main_line_criterion ["foo"]). reflexivity.
Defined.
















(** ** Traced calls *)






(** The lines that the repository's test of the decorator looks at, for a
    function that returns the list of its arguments. *)
Example traced_method_call_example :
  (call_attribute (trace false false (Plain example_function))
     (VObject "AClass" "<AClass object>") (VClass "AClass" "<class 'AClass'>")
     [VStr "some_argument"] [] example_world).2.(trace_file)
  = with_newline "T0 *** ENTER [im] AClass.a_method('some_argument')"
    +:+ with_newline
          "T1 *** EXIT [im] AClass.a_method() => [<AClass object>, 'some_argument']"
  ∧ (call_attribute (trace false false (ClassMethod example_function))
       (VObject "AClass" "<AClass object>") (VClass "AClass" "<class 'AClass'>")
       [VStr "some_argument"] [] example_world).2.(trace_file)
    = with_newline "T0 *** ENTER [cm] AClass.a_method('some_argument')"
      +:+ with_newline
            "T1 *** EXIT [cm] AClass.a_method() => [<class 'AClass'>, 'some_argument']"
  ∧ (call_attribute (trace false true (StaticMethod example_function))
       VNone (VClass "AClass" "<class 'AClass'>")
       [VStr "some_argument"] [] example_world).2.(trace_file)
    = with_newline "T0 *** ENTER [fn] a_method"
      +:+ with_newline "T1 *** EXIT [fn] a_method".
Proof. split_and!; reflexivity. Qed.





(** X21: A wrapper that was looked up through a class can be bound later:
    for a plain method, looking the method up through the class and then
    binding the result to an object gives what looking it up through the
    object gives.  For a class method or a static method the later binding
    changes nothing.  A wrapper that is bound to an object stays bound to
    it. *)
Theorem bound_wrapper_rebinds (wrapper : wrapper) (wrapped : callable)
    (owner instance owner' : value) (w : world) :
  (b ← _FunctionWrapper__get__ (_decorator wrapper wrapped) VNone owner;
   _BoundFunctionWrapper__get__ b instance owner') w
  = match wrapped with
    | ClassMethod _ | StaticMethod _ =>
        _FunctionWrapper__get__ (_decorator wrapper wrapped) VNone owner w
    | _ => _FunctionWrapper__get__ (_decorator wrapper wrapped) instance owner' w
    end
  ∧ ∀ b other,
      instance ≠ VNone →
      _FunctionWrapper__get__ (_decorator wrapper wrapped) instance owner w = (Returned b, w) →
      _BoundFunctionWrapper__get__ b other owner' w = (Returned b, w).
Proof.
  split.
  - destruct wrapped; try done; by destruct instance.
  - intros b other Hi Hb. unfold _FunctionWrapper__get__ in Hb.
    cbv [mbind traced_bind] in Hb.
    destruct (__get__ _ instance owner w) as [[c|e] w'] eqn:Hc; [|done].
    cbv [mret traced_ret] in Hb. injection Hb as <- ->.
    unfold _BoundFunctionWrapper__get__. cbn [bw_instance].
    by destruct instance.
Qed.
